(** * runehistory-api: the Mongo table adapter and the auth services

    A shallow embedding of
    - [runehistory/framework/services/mongo.py] ([MongoTableAdapter]) and
    - [runehistory_api/app/services/auth.py] ([PermissionService], [JwtService]),
    followed by the properties of the specification that concern them. *)

From stdpp Require Import gmap strings list pretty.

Set Warnings "-register-all".
Open Scope Z_scope.

(** ** Python values, exceptions and the built-in operations the code uses *)
Module Py.

(** A [str] object.  Python's [is] compares objects, not texts, and the
    adapter uses [is] on strings in two places.  CPython keeps one shared
    object for every name-like literal of a program; [interned] says that
    the object is that shared one.  A string built while the program runs
    (decoded from a request, produced by [format] or [str]) is an object
    of its own.  So [is] is decided here whenever one of the two objects
    is interned, as a literal is; whether two objects that are not
    interned are one and the same is not recorded, and [same_str] answers
    no for them. *)
Record pystr := Str { interned : bool; chars : string }.

(** A string literal of the source. *)
Definition lit (s : string) : pystr := Str true s.

(** Hashable values: what can be a dict key. *)
Inductive atom :=
| ANone
| ABool (b : bool)
| AInt (z : Z)
| AStr (s : pystr)
| AObjectId (hex : string).   (* bson.ObjectId, by its 24 hex digits *)

Inductive pyval :=
| Atom (a : atom)
| PList (l : list pyval)
| PDict (d : list (atom * pyval)).   (* items in insertion order *)

Abbreviation PNone := (Atom ANone).
Abbreviation PBool b := (Atom (ABool b)).
Abbreviation PInt z := (Atom (AInt z)).
Abbreviation PStr s := (Atom (AStr s)).
Abbreviation PObjectId h := (Atom (AObjectId h)).

Abbreviation dict := (list (atom * pyval)).

Inductive exn :=
| KeyError (k : atom)
| IndexError
| TypeError
| ValueError (msg : string)
| Exception (msg : string)        (* raise Exception(msg) *)
| DuplicateKeyError               (* pymongo.errors.DuplicateKeyError *)
| DuplicateError (msg : string)   (* runehistory.app.exceptions.DuplicateError *)
| PyMongoError (msg : string).    (* any other failure of the driver *)

Inductive result (A : Type) :=
| Ok (a : A)
| Raise (e : exn).
Arguments Ok {A} a.
Arguments Raise {A} e.

Definition bind {A B : Type} (m : result A) (f : A -> result B) : result B :=
  match m with
  | Ok a => f a
  | Raise e => Raise e
  end.

Notation "x <- m ;; k" := (bind m (fun x => k))
  (at level 100, m at next level, right associativity).

Section Loops.
Context {A B : Type}.

(** [[f x for x in l]] *)
Fixpoint mapM (f : A -> result B) (l : list A) : result (list B) :=
  match l with
  | [] => Ok []
  | x :: r => y <- f x ;; ys <- mapM f r ;; Ok (y :: ys)
  end.

(** [for x in l: acc = f(acc, x)] *)
Fixpoint foldM (f : B -> A -> result B) (l : list A) (acc : B) : result B :=
  match l with
  | [] => Ok acc
  | x :: r => acc' <- f acc x ;; foldM f r acc'
  end.
End Loops.

(** [a == b] on hashable values: [bool] is a subclass of [int]. *)
Definition as_int (a : atom) : option Z :=
  match a with
  | ABool b => Some (if b then 1 else 0)
  | AInt z => Some z
  | _ => None
  end.

Definition atom_eqb (a b : atom) : bool :=
  match a, b with
  | ANone, ANone => true
  | AStr s, AStr t => String.eqb (chars s) (chars t)
  | AObjectId g, AObjectId h => String.eqb g h
  | _, _ =>
      match as_int a, as_int b with
      | Some x, Some y => x =? y
      | _, _ => false
      end
  end.

(** [a is b] on two [str] objects, one of them interned: they are one
    object when the other is the interned object of the same text. *)
Definition same_str (a b : pystr) : bool :=
  interned a && interned b && String.eqb (chars a) (chars b).

(** [v == 'text'] for a literal of the source. *)
Definition eq_lit (v : pyval) (text : string) : bool :=
  match v with
  | PStr s => String.eqb (chars s) text
  | _ => false
  end.

(** [v is 'text'] for a literal of the source. *)
Definition is_lit (v : pyval) (text : string) : bool :=
  match v with
  | PStr s => same_str s (lit text)
  | _ => false
  end.

(** [v is None] *)
Definition is_None (v : pyval) : bool :=
  match v with
  | PNone => true
  | _ => false
  end.

(** [bool(v)] *)
Definition truthy (v : pyval) : bool :=
  match v with
  | PNone => false
  | PBool b => b
  | PInt z => negb (z =? 0)
  | PStr s => negb (String.eqb (chars s) "")
  | PObjectId _ => true
  | PList l => negb (Nat.eqb (length l) 0)
  | PDict d => negb (Nat.eqb (length d) 0)
  end.

(** [str(a)], as [format] inserts it *)
Definition str_of (a : atom) : string :=
  match a with
  | ANone => "None"
  | ABool true => "True"
  | ABool false => "False"
  | AInt z => pretty z
  | AStr s => chars s
  | AObjectId h => h
  end.

(** [isinstance(v, ObjectId)] *)
Definition isinstance_ObjectId (v : pyval) : bool :=
  match v with
  | PObjectId _ => true
  | _ => false
  end.

(** [str(v)] of a hashable value, a new [str]; a list or a dict is left
    alone here, the code never prints one. *)
Definition str (v : pyval) : pyval :=
  match v with
  | Atom a => PStr (Str false (str_of a))
  | _ => v
  end.
(** The characters of a text, each a one-character [str] that the
    iteration hands out, not the interned object of a literal. *)
Fixpoint characters (s : string) : list atom :=
  match s with
  | EmptyString => []
  | String c r => AStr (Str false (String c EmptyString)) :: characters r
  end.

(** What iterating a value that is not a list yields: the keys of a dict,
    the characters of a str; nothing else here is iterable. *)
Definition iter_atoms (v : pyval) : result (list atom) :=
  match v with
  | PDict d => Ok (map fst d)
  | PStr s => Ok (characters (chars s))
  | _ => Raise TypeError
  end.

(** [iter(v)] *)
Definition iter (v : pyval) : result (list pyval) :=
  match v with
  | PList l => Ok l
  | _ => ats <- iter_atoms v ;; Ok (map Atom ats)
  end.

(** [hash(v)] succeeds: lists and dicts are unhashable. *)
Definition hashable (v : pyval) : result atom :=
  match v with
  | Atom a => Ok a
  | _ => Raise TypeError
  end.

(** [d[k]] on a dict *)
Fixpoint dict_get (k : atom) (d : dict) : option pyval :=
  match d with
  | [] => None
  | (k', v) :: r => if atom_eqb k' k then Some v else dict_get k r
  end.

(** [d[k] = v]: an existing key keeps its place and its key object. *)
Fixpoint dict_set (k : atom) (v : pyval) (d : dict) : dict :=
  match d with
  | [] => [(k, v)]
  | (k', v') :: r =>
      if atom_eqb k' k then (k', v) :: r else (k', v') :: dict_set k v r
  end.

(** [d.update(other)] *)
Definition dict_update (d other : dict) : dict :=
  fold_left (fun acc '(k, v) => dict_set k v acc) other d.

(** [v[i]] for an index [i] that is a small literal of the source *)
Definition getitem (v : pyval) (i : nat) : result pyval :=
  match v with
  | PList l =>
      match nth_error l i with
      | Some x => Ok x
      | None => Raise IndexError
      end
  | PStr s =>
      match nth_error (characters (chars s)) i with
      | Some c => Ok (Atom c)
      | None => Raise IndexError
      end
  | PDict d =>
      match dict_get (AInt (Z.of_nat i)) d with
      | Some x => Ok x
      | None => Raise (KeyError (AInt (Z.of_nat i)))
      end
  | _ => Raise TypeError
  end.

End Py.
Import Py.

(** ** pymongo, as far as the adapter uses it *)
Module pymongo.

(** A document: field name to value. *)
Abbreviation document := (gmap string pyval).

(** The sort tokens [pymongo.ASCENDING] and [pymongo.DESCENDING]. *)
Inductive direction := ASCENDING | DESCENDING.

(** A [Cursor] is a query that has not run yet: [Collection.find] makes it,
    [limit], [skip] and [sort] each set one option of it and return it, and
    iterating it sends the query.  Each of these calls checks its
    arguments and raises for those it refuses.  A field holds the
    argument of the call that set it: the filter and the projection
    given to [find], the numbers given to [limit] and [skip], the list
    of (key, direction) pairs given to [sort]. *)
Record Cursor := {
  cur_filter : dict;
  cur_projection : pyval;
  cur_limit : option Z;
  cur_skip : option Z;
  cur_sort : option (list (pyval * direction))
}.

(** [isinstance(v, str)] *)
Definition isinstance_str (v : pyval) : bool :=
  match v with
  | PStr _ => true
  | _ => false
  end.

(** The projections that [find] takes: [None], anything falsy (it stands
    for the key alone), a mapping, or a sequence of key names, each a
    [str] (a [str] is the sequence of its characters). *)
Definition takes_projection (projection : pyval) : bool :=
  negb (truthy projection) ||
  match projection with
  | PDict _ => true
  | PList fields => forallb isinstance_str fields
  | PStr _ => true
  | _ => false
  end.

(** [Collection.find(filter, projection)]: the cursor, or [TypeError]
    for a projection that is neither a mapping nor a list of key names. *)
Definition find (spec : dict) (projection : pyval) : result Cursor :=
  if takes_projection projection
  then Ok {| cur_filter := spec; cur_projection := projection;
             cur_limit := None; cur_skip := None; cur_sort := None |}
  else Raise TypeError.

(** [Cursor.limit(n)], for an int [n] *)
Definition limit (n : Z) (c : Cursor) : Cursor :=
  {| cur_filter := cur_filter c; cur_projection := cur_projection c;
     cur_limit := Some n; cur_skip := cur_skip c; cur_sort := cur_sort c |}.

(** [Cursor.skip(n)], for an int [n]: [ValueError] when it is negative. *)
Definition skip (n : Z) (c : Cursor) : result Cursor :=
  if n <? 0 then Raise (ValueError "skip must be >= 0")
  else Ok {| cur_filter := cur_filter c; cur_projection := cur_projection c;
             cur_limit := cur_limit c; cur_skip := Some n;
             cur_sort := cur_sort c |}.

(** [Cursor.sort(pairs)], for a list of (key, direction) pairs:
    [ValueError] for the empty list, [TypeError] for a key that is not a
    [str]. *)
Definition sort (pairs : list (pyval * direction)) (c : Cursor) : result Cursor :=
  match pairs with
  | [] => Raise (ValueError "key_or_list must not be the empty list")
  | _ =>
      if forallb (fun '(key, _) => isinstance_str key) pairs
      then Ok {| cur_filter := cur_filter c; cur_projection := cur_projection c;
                 cur_limit := cur_limit c; cur_skip := cur_skip c;
                 cur_sort := Some pairs |}
      else Raise TypeError
  end.

(** The collection behind the adapter, a state [C] of the store with the
    three calls that reach it.  [insert_one] returns the document as the
    call leaves it (the driver writes the key it assigned into the dict it
    was given) or the driver's exception. *)
Class Collection (C : Type) := {
  insert_one : document -> C -> result document * C;
  find_one : dict -> pyval -> C -> result (option document) * C;
  fetch : Cursor -> C -> result (list document) * C
}.

End pymongo.
Import pymongo.

(** ** mongo.py: MongoTableAdapter *)
Module Mongo.

Section MongoTableAdapter.
(** [self.identifier]: [TableAdapter.__init__] (not among the sources)
    keeps the [identifier: str = None] it is given. *)
Variable identifier : option pystr.

(** [v is self.identifier], decided as [same_str] decides it: for an
    identifier that is an interned [str], or [None]. *)
Definition is_identifier (v : pyval) : bool :=
  match identifier, v with
  | None, PNone => true
  | Some i, PStr s => same_str s i
  | _, _ => false
  end.

(** [v == self.identifier] *)
Definition eq_identifier (v : pyval) : bool :=
  match identifier, v with
  | None, PNone => true
  | Some i, PStr s => String.eqb (chars s) (chars i)
  | _, _ => false
  end.

(** [self.identifier and self.identifier in record]: the name to move,
    when there is one. *)
Definition identifier_in (record : document) : option string :=
  match identifier with
  | Some i =>
      if negb (String.eqb (chars i) "") && bool_decide (is_Some (record !! chars i))
      then Some (chars i) else None
  | None => None
  end.

(** [record.pop(k)] then [record[k'] = v] *)
Definition rename (k k' : string) (record : document) : document :=
  match record !! k with
  | Some v => <[k' := v]> (delete k record)
  | None => record
  end.

Definition _record_to_id (record : document) : document :=
  match identifier_in record with
  | Some i => rename i "_id" record
  | None => record
  end.

Definition _record_from_id (record : document) : document :=
  let record :=
    match record !! "_id" with
    | Some v =>
        if isinstance_ObjectId v then <["_id" := str v]> record else record
    | None => record
    end in
  match identifier with
  | Some i =>
      if negb (String.eqb (chars i) "") && bool_decide (is_Some (record !! "_id"))
      then rename "_id" (chars i) record else record
  | None => record
  end.

Definition _projection_from_list (fields : pyval) : result dict :=
  if negb (truthy fields) then Ok [] else
  fs <- iter fields ;;
  let fields :=
    map (fun field => if is_identifier field then PStr (lit "_id") else field) fs in
  projection <-
    foldM (fun projection field =>
             k <- hashable field ;; Ok (dict_set k (PInt 1) projection))
          fields [] ;;
  if negb (existsb (fun field => eq_lit field "_id") fields)
  then Ok (dict_set (AStr (lit "_id")) (PInt 0) projection)
  else Ok projection.

(** *** The condition translator

    The four methods call one another; each is written first with the
    methods it calls through [self] as arguments, and the recursion on the
    condition value closes the knot. *)

(** ['${}'.format(statement)] *)
Definition dollar (statement : atom) : atom :=
  AStr (Str false ("$" +:+ str_of statement)).

Definition parse_condition_list_with
    (self_parse_condition_dict : dict -> result dict)
    (condition : list pyval) : result dict :=
  match condition with
  | [] => Raise IndexError                       (* condition[0] *)
  | c0 :: rest =>
      let key := if eq_identifier c0 then PStr (lit "_id") else c0 in
      match rest with
      | [c1] =>                                  (* len(condition) is 2 *)
          match c1 with
          | PDict d => self_parse_condition_dict d
          | _ => k <- hashable key ;; Ok [(k, PDict [(AStr (lit "$eq"), c1)])]
          end
      | [c1; c2] =>                              (* len(condition) is 3 *)
          if eq_lit c1 "=" then
            k <- hashable key ;; Ok [(k, PDict [(AStr (lit "$eq"), c2)])]
          else if eq_lit c1 ">" then
            k <- hashable key ;; Ok [(k, PDict [(AStr (lit "$gt"), c2)])]
          else if eq_lit c1 ">=" then
            k <- hashable key ;; Ok [(k, PDict [(AStr (lit "$gte"), c2)])]
          else if eq_lit c1 "<" then
            k <- hashable key ;; Ok [(k, PDict [(AStr (lit "$lt"), c2)])]
          else if eq_lit c1 "<=" then
            k <- hashable key ;; Ok [(k, PDict [(AStr (lit "$lte"), c2)])]
          else Raise (Exception "Unhandled condition")
      | _ => Raise (Exception "Unhandled condition")
      end
  end.

Definition parse_condition_dict_with
    (self_parse_conditions : pyval -> atom -> result dict)
    (conditions : dict) : result dict :=
  foldM (fun parsed_conditions '(statement, sub_conditions) =>
           parsed <- self_parse_conditions sub_conditions statement ;;
           Ok (dict_update parsed_conditions parsed))
        conditions [].

(** [_parse_condition] on a value that is neither a list nor a dict: no
    branch is taken and the method ends without a [return]. *)
Definition parse_condition_atom (condition : atom) : result pyval := Ok PNone.

Fixpoint _parse_condition (condition : pyval) {struct condition} : result pyval :=
  match condition with
  | PList l =>
      d <- parse_condition_list_with
             (parse_condition_dict_with _parse_conditions) l ;;
      Ok (PDict d)
  | PDict d =>
      d <- parse_condition_dict_with _parse_conditions d ;;
      Ok (PDict d)
  | Atom a => parse_condition_atom a
  end
with _parse_conditions (conditions : pyval) (statement : atom)
       {struct conditions} : result dict :=
  if negb (truthy conditions) then Ok [] else
  parsed <-
    match conditions with
    | PList l => mapM _parse_condition l
    | _ =>
        (* the keys of a dict, the characters of a str *)
        items <- iter_atoms conditions ;; mapM parse_condition_atom items
    end ;;
  Ok [(dollar statement, PList parsed)].

Definition _parse_condition_dict : dict -> result dict :=
  parse_condition_dict_with _parse_conditions.

Definition _parse_condition_list : list pyval -> result dict :=
  parse_condition_list_with _parse_condition_dict.

(** The default [statement: str = 'and']. *)
Definition default_statement : atom := AStr (lit "and").

(** *** The operations on the collection *)
Context {C : Type} `{Collection C}.

(** The [try] block of [insert] up to the call of the driver: the
    document that [insert_one] is given. *)
Definition insert_document (record : document) : result document :=
  let record := _record_to_id record in
  match record !! "_id" with
  | None => Raise (KeyError (AStr (lit "_id")))          (* record['_id'] *)
  | Some v => Ok (if is_None v then delete "_id" record else record)
  end.

Definition insert (record : document) (c : C) : result document * C :=
  let '(tried, c') :=
    match insert_document record with
    | Ok record => insert_one record c
    | Raise e => (Raise e, c)
    end in
  match tried with
  | Raise DuplicateKeyError => (Raise (DuplicateError "Duplicate record"), c')
  | Raise e => (Raise e, c')
  | Ok record => (Ok (_record_from_id record), c')
  end.

Definition find_one (where_ fields : pyval) (c : C)
  : result (option document) * C :=
  match _parse_conditions where_ default_statement with
  | Raise e => (Raise e, c)
  | Ok parsed_where =>
      match pymongo.find_one parsed_where fields c with
      | (Ok None, c') => (Ok None, c')
      | (Ok (Some record), c') => (Ok (Some (_record_from_id record)), c')
      | (Raise e, c') => (Raise e, c')
      end
  end.

(** The default [limit: int = 100]. *)
Definition default_limit : Z := 100.

(** [find] up to its last line: the cursor [results] that it then
    iterates.  [limit] is [None] when the caller leaves the argument out. *)
Definition find_results (where_ fields : pyval) (limit : option Z)
    (offset : option Z) (order : pyval) : result Cursor :=
  let limit := default default_limit limit in
  parsed_where <- _parse_conditions where_ default_statement ;;
  results <- pymongo.find parsed_where fields ;;
  let results := pymongo.limit limit results in
  results <-
    match offset with
    | Some n => pymongo.skip n results
    | None => Ok results
    end ;;
  if is_None order then Ok results else
  items <- iter order ;;
  updated_order <-
    mapM (fun item =>
            d <- getitem item 1 ;;
            let direction := if is_lit d "desc" then DESCENDING else ASCENDING in
            f <- getitem item 0 ;;
            Ok (f, direction))
         items ;;
  pymongo.sort updated_order results.

Definition find (where_ fields : pyval) (limit : option Z)
    (offset : option Z) (order : pyval) (c : C) : result (list document) * C :=
  match find_results where_ fields limit offset order with
  | Raise e => (Raise e, c)
  | Ok results =>
      match fetch results c with
      | (Ok records, c') => (Ok (map _record_from_id records), c')
      | (Raise e, c') => (Raise e, c')
      end
  end.

End MongoTableAdapter.

End Mongo.

(** ** auth.py: PermissionService and JwtService *)
Module Auth.

(** Modelled from the spec: the [User] model class
    (runehistory_api.domain.models.auth is not among the sources), the
    identity of a caller: its username, its password hash, its role
    ([type]) and its id, each a text. *)
Record User := {
  username : string;
  password : string;
  type : string;
  id : string
}.

(** A grant: the capability letters of every scope. *)
Abbreviation grant := (gmap string (list string)).

Definition generate (user : User) : result grant :=
  if String.eqb (type user) "service" then
    Ok {[ "accounts" := ["r"; "c"; "u"; "d"];
          "highscores" := ["r"; "c"; "u"; "d"];
          "users" := ["r"; "c"; "u"; "d"] ]}
  else if String.eqb (type user) "guest" then
    Ok {[ "accounts" := ["r"; "c"];
          "highscores" := ["r"] ]}
  else Raise (ValueError ("Unknown user type: " +:+ type user)).

Definition check_permission (scope : string) (permissions : grant)
    (required : string) : bool :=
  match permissions !! scope with
  | None => false
  | Some [] => false
  | Some scope_perms =>
      if bool_decide ("*" ∉ scope_perms) && bool_decide (required ∉ scope_perms)
      then false
      else true
  end.

(** The claim set that [simplejwt.jwt.Jwt] is built from: the secret, the
    payload [{'aut': permissions}] and the registered claims. *)
Record Jwt := {
  secret : string;
  payload : gmap string grant;
  issuer : string;
  subject : string;
  issued_at : Z;
  valid_from : Z;
  valid_to : Z
}.

(** A [datetime] is an instant with microsecond resolution, here the count
    of microseconds since 1970-01-01 00:00:00; a [timedelta] is a count of
    microseconds too, and the difference of two instants is exact. *)
Definition epoch : Z := 0.

Definition timedelta_minutes (minutes : Z) : Z := minutes * 60 * 1000000.

(** The integer nearest to [n / d], the even one of two that are equally
    near ([0 < d]). *)
Definition round_half_even (n d : Z) : Z :=
  let q := n / d in
  match 2 * (n mod d) ?= d with
  | Lt => q
  | Gt => q + 1
  | Eq => if Z.even q then q else q + 1
  end.

(** The [k] with [2^k <= n / d < 2^(k+1)], for [0 < n] and [0 < d]. *)
Definition log2_quotient (n d : Z) : Z :=
  let k := Z.log2 n - Z.log2 d in
  if (if 0 <=? k then n <? d * 2 ^ k else n * 2 ^ (- k) <? d)
  then k - 1 else k.

(** [int(n / d)] for ints [0 <= n] and [0 < d].  The true division of
    two ints gives the float (binary64: 53 significant bits) nearest to
    the quotient, ties to even; [int] drops its fraction.  The float is
    [m * 2^e] with [m] the quotient scaled to 53 bits and rounded. *)
Definition int_true_div (n d : Z) : Z :=
  if n =? 0 then 0 else
  let e := log2_quotient n d - 52 in
  if 0 <=? e then round_half_even n (d * 2 ^ e) * 2 ^ e
  else round_half_even (n * 2 ^ (- e)) d / 2 ^ (- e).

(** [int(delta.total_seconds())]: [total_seconds] is the true division of
    the microseconds by 10**6, a float, and [int] drops its fraction,
    towards zero. *)
Definition int_total_seconds (delta : Z) : Z :=
  if 0 <=? delta then int_true_div delta 1000000
  else - int_true_div (- delta) 1000000.

Definition generate_subject (user : User) : string :=
  username user +:+ "-" +:+ type user +:+ "_" +:+ id user.

(** [make], for the secret of the service and the instant that
    [datetime.utcnow()] reads. *)
Definition make (self_secret : string) (utcnow : Z) (user : User) : result Jwt :=
  permissions <- generate user ;;
  let now := utcnow in
  let now_ts := int_total_seconds (now - epoch) in
  let expires := now + timedelta_minutes 10 in
  let expires_ts := int_total_seconds (expires - epoch) in
  Ok {| secret := self_secret;
        payload := {[ "aut" := permissions ]};
        issuer := "rh-api";
        subject := generate_subject user;
        issued_at := now_ts;
        valid_from := now_ts;
        valid_to := expires_ts |}.

Import Stdlib.Strings.Ascii.

(** [s.split(sep)] for a separator of one character: the pieces between
    the separators, at least one. *)
Fixpoint split (sep : Ascii.ascii) (s : string) : list string :=
  match s with
  | EmptyString => [EmptyString]
  | String c r =>
      if Ascii.eqb c sep then EmptyString :: split sep r
      else match split sep r with
           | piece :: pieces => String c piece :: pieces
           | [] => [String c EmptyString]
           end
  end.

(** [subject.split('_')[-1]] *)
Definition user_id_from_subject (subject : string) : string :=
  List.last (split "_"%char subject) EmptyString.

End Auth.

(** ** A collection to run the adapter against

    A stub of the driver that remembers the keys in use and every request
    it receives.  [insert_one] gives a document without a key a fresh
    [ObjectId] and refuses a key that is in use; the queries find nothing. *)
Module Stub.

Inductive request :=
| InsertOne (doc : document)
| FindOne (spec : dict) (projection : pyval)
| Fetch (cursor : Cursor).

Record store := {
  taken : list atom;
  requests : list request
}.

Definition empty : store := {| taken := []; requests := [] |}.

Definition received (rq : request) (s : store) : store :=
  {| taken := taken s; requests := requests s ++ [rq] |}.

Definition fresh_id (s : store) : atom :=
  AObjectId ("65f0c0ffee00000000000" +:+ pretty (100 + Z.of_nat (length (taken s)))).

Definition stub_insert_one (doc : document) (s : store)
  : result document * store :=
  let s := received (InsertOne doc) s in
  match doc !! "_id" with
  | None =>
      (Ok (<["_id" := Atom (fresh_id s)]> doc),
       {| taken := fresh_id s :: taken s; requests := requests s |})
  | Some (Atom key) =>
      if existsb (atom_eqb key) (taken s) then (Raise DuplicateKeyError, s)
      else (Ok doc, {| taken := key :: taken s; requests := requests s |})
  | Some _ => (Ok doc, s)
  end.

#[global] Instance stub_collection : Collection store := {|
  insert_one := stub_insert_one;
  find_one := fun spec projection s => (Ok None, received (FindOne spec projection) s);
  fetch := fun cursor s => (Ok [], received (Fetch cursor) s)
|}.

End Stub.

(** * Properties *)

Import Mongo.

(** ** The result monad *)

Lemma bind_Ok {A B : Type} (m : result A) (f : A -> result B) (b : B) :
  bind m f = Ok b -> exists a, m = Ok a /\ f a = Ok b.
Proof. destruct m as [a | e]; simpl; [eauto | discriminate]. Qed.

Lemma mapM_length {A B : Type} (f : A -> result B) (l : list A) (l' : list B) :
  mapM f l = Ok l' -> length l' = length l.
Proof.
  revert l'. induction l as [| x r IH]; intros l' E; simpl in E.
  - by inversion E.
  - apply bind_Ok in E as (y & _ & E).
    apply bind_Ok in E as (ys & Eys & E).
    inversion E; subst; simpl. f_equal. by apply IH.
Qed.

(** ** The condition translator *)
Section Translator.
Variable identifier : option pystr.

(** The methods as the source writes them. *)
Lemma _parse_condition_eq (condition : pyval) :
  _parse_condition identifier condition =
  match condition with
  | PList l => d <- _parse_condition_list identifier l ;; Ok (PDict d)
  | PDict d => d <- _parse_condition_dict identifier d ;; Ok (PDict d)
  | _ => Ok PNone
  end.
Proof. by destruct condition. Qed.

Lemma mapM_parse_atoms (items : list atom) :
  mapM (_parse_condition identifier) (map Atom items)
  = mapM parse_condition_atom items.
Proof. induction items as [| a r IH]; simpl; [done | by rewrite IH]. Qed.

Lemma _parse_conditions_eq (conditions : pyval) (statement : atom) :
  _parse_conditions identifier conditions statement =
  if negb (truthy conditions) then Ok [] else
  items <- iter conditions ;;
  parsed <- mapM (_parse_condition identifier) items ;;
  Ok [(dollar statement, PList parsed)].
Proof.
  destruct conditions as [a | l | d].
  - cbn [_parse_conditions iter]. destruct (negb _); [done |].
    destruct (iter_atoms (Atom a)) as [items | e]; simpl; [| done].
    by rewrite mapM_parse_atoms.
  - done.
  - cbn [_parse_conditions iter iter_atoms]. destruct (negb _); [done |].
    simpl. by rewrite mapM_parse_atoms.
Qed.

Lemma _parse_condition_dict_eq (conditions : dict) :
  _parse_condition_dict identifier conditions =
  foldM (fun parsed_conditions '(statement, sub_conditions) =>
           parsed <- _parse_conditions identifier sub_conditions statement ;;
           Ok (dict_update parsed_conditions parsed))
        conditions [].
Proof. done. Qed.

Lemma _parse_condition_list_eq (condition : list pyval) :
  _parse_condition_list identifier condition =
  (c0 <- getitem (PList condition) 0 ;;
  let key := if eq_identifier identifier c0 then PStr (lit "_id") else c0 in
  let compare native value :=
    k <- hashable key ;; Ok [(k, PDict [(AStr (lit native), value)])] in
  if Nat.eqb (length condition) 2 then
    c1 <- getitem (PList condition) 1 ;;
    match c1 with
    | PDict d => _parse_condition_dict identifier d
    | _ => compare "$eq" c1
    end
  else if Nat.eqb (length condition) 3 then
    c1 <- getitem (PList condition) 1 ;;
    c2 <- getitem (PList condition) 2 ;;
    if eq_lit c1 "=" then compare "$eq" c2
    else if eq_lit c1 ">" then compare "$gt" c2
    else if eq_lit c1 ">=" then compare "$gte" c2
    else if eq_lit c1 "<" then compare "$lt" c2
    else if eq_lit c1 "<=" then compare "$lte" c2
    else Raise (Exception "Unhandled condition")
  else Raise (Exception "Unhandled condition")).
Proof.
  destruct condition as [| c0 [| c1 [| c2 [| c3 r]]]]; reflexivity.
Qed.

(** Whatever [_parse_conditions] returns is the empty filter or one
    combinator over at least one operand. *)
Lemma _parse_conditions_shape (conditions : pyval) (statement : atom) (d : dict) :
  _parse_conditions identifier conditions statement = Ok d ->
  d = [] \/ exists parsed, parsed <> [] /\ d = [(dollar statement, PList parsed)].
Proof.
  rewrite _parse_conditions_eq. destruct (truthy conditions) eqn:T; simpl.
  - intros E. right.
    apply bind_Ok in E as (items & Ei & E).
    apply bind_Ok in E as (parsed & Ep & E).
    exists parsed. split; [| by inversion E].
    apply mapM_length in Ep. intros ->. simpl in Ep.
    destruct conditions as [[| | | s |] | l | dd]; simpl in *; try discriminate.
    + destruct s as [i [| c r]]; simpl in *; [discriminate |].
      by inversion Ei; subst.
    + inversion Ei; subst. by destruct items.
    + inversion Ei; subst. by destruct dd.
  - intros E. left. by inversion E.
Qed.

End Translator.

Section TranslatorClaims.
Variable identifier : option pystr.

(** C2. A condition [[field, op, value]] whose [op] is one of "=", ">",
    ">=", "<", "<=" translates to the one native operator of that
    comparison ($eq, $gt, $gte, $lt, $lte) applied to the field, the
    field being replaced by the native key "_id" when its text is the
    logical identifier; with any other text for [op] the translation
    raises [Exception('Unhandled condition')], the error that the
    specification calls UnsupportedConditionError. *)
Theorem comparison_translation (field op : pystr) (value : pyval) :
  let key :=
    if bool_decide (chars <$> identifier = Some (chars field))
    then lit "_id" else field in
  let translated :=
    _parse_condition_list identifier [PStr field; PStr op; value] in
  let emits native :=
    translated = Ok [(AStr key, PDict [(AStr (lit native), value)])] in
  (chars op = "=" -> emits "$eq") /\
  (chars op = ">" -> emits "$gt") /\
  (chars op = ">=" -> emits "$gte") /\
  (chars op = "<" -> emits "$lt") /\
  (chars op = "<=" -> emits "$lte") /\
  (chars op ∉ ["="; ">"; ">="; "<"; "<="] ->
   translated = Raise (Exception "Unhandled condition")).
Proof.
  intros key translated emits.
  assert (K : (if eq_identifier identifier (PStr field)
               then PStr (lit "_id") else PStr field) = PStr key).
  { subst key. unfold eq_identifier.
    destruct identifier as [i |]; case_bool_decide as E; simpl in E.
    - inversion E as [E']. by rewrite E', String.eqb_refl.
    - destruct (String.eqb_spec (chars field) (chars i)) as [E' | _];
        [by rewrite E' in E | done].
    - discriminate.
    - done. }
  subst translated emits. unfold _parse_condition_list.
  cbn [parse_condition_list_with]. rewrite K. cbn [hashable bind eq_lit].
  repeat split; try (intros ->; reflexivity).
  intros N.
  repeat (apply not_elem_of_cons in N as [? N]).
  repeat (rewrite (proj2 (String.eqb_neq _ _)); [| done]).
  reflexivity.
Qed.

(** C3. A group whose operand sequence is empty translates to the empty
    filter (match all), whatever its combinator, and so does an absent
    or empty condition expression; a combinator that the translator
    emits always has at least one operand. *)
Theorem empty_group_is_match_all (combinator statement : atom) :
  _parse_condition identifier (PDict [(combinator, PList [])]) = Ok (PDict []) /\
  _parse_condition_dict identifier [(combinator, PList [])] = Ok [] /\
  _parse_conditions identifier (PList []) statement = Ok [] /\
  _parse_conditions identifier PNone statement = Ok [] /\
  (forall conditions d,
      _parse_conditions identifier conditions statement = Ok d ->
      d = [] \/
      exists operands, operands <> [] /\ d = [(dollar statement, PList operands)]).
Proof.
  repeat split; try reflexivity.
  intros conditions d. apply _parse_conditions_shape.
Qed.

(** A list condition whose length is neither 2 nor 3 is rejected. *)
Lemma wrong_length_rejected (condition : list pyval) :
  length condition <> 2%nat -> length condition <> 3%nat ->
  exists e, _parse_condition_list identifier condition = Raise e.
Proof.
  intros N2 N3. unfold _parse_condition_list.
  destruct condition as [| c0 [| c1 [| c2 [| c3 r]]]]; simpl in *;
    try done; eauto.
Qed.

(** C9. The translator does not reject a condition that is neither a list
    nor a dict: [_parse_condition] returns [None] for it, and the filter
    built around it carries that [None] as an operand.  So a flat
    [[field, value]] given where a list of conditions is expected
    translates to {"$and": [None, None]}. *)
Theorem scalar_condition_not_rejected (a b : atom) (statement : atom) :
  _parse_condition identifier (Atom a) = Ok PNone /\
  _parse_conditions identifier (PList [Atom a; Atom b]) statement
  = Ok [(dollar statement, PList [PNone; PNone])].
Proof. split; reflexivity. Qed.

End TranslatorClaims.

(** The witness of C2: the operator "!=". *)
Lemma comparison_translation_witness :
  _parse_condition_list (Some (lit "id"))
    [PStr (lit "id"); PStr (Str false "!="); PInt 1]
  = Raise (Exception "Unhandled condition")
  /\ _parse_condition_list (Some (lit "id"))
       [PStr (lit "id"); PStr (Str false ">="); PInt 1]
     = Ok [(AStr (lit "_id"), PDict [(AStr (lit "$gte"), PInt 1)])].
Proof.
  pose proof (comparison_translation (Some (lit "id")) (lit "id")
                (Str false "!=") (PInt 1)) as (_ & _ & _ & _ & _ & H).
  pose proof (comparison_translation (Some (lit "id")) (lit "id")
                (Str false ">=") (PInt 1)) as (_ & _ & G & _).
  split.
  - apply H. apply (bool_decide_unpack _). vm_compute. exact I.
  - apply G. reflexivity.
Defined.

(** The witness of C3: one comparison under "or". *)
Lemma empty_group_is_match_all_witness :
  [(dollar (AStr (lit "or")),
    PList [PDict [(AStr (lit "a"), PDict [(AStr (lit "$eq"), PInt 1)])]])] = []
  \/ exists operands, operands <> [] /\
       [(dollar (AStr (lit "or")),
         PList [PDict [(AStr (lit "a"), PDict [(AStr (lit "$eq"), PInt 1)])]])]
       = [(dollar (AStr (lit "or")), PList operands)].
Proof.
  pose proof (empty_group_is_match_all (Some (lit "id")) ANone (AStr (lit "or")))
    as (_ & _ & _ & _ & H).
  apply (H (PList [PList [PStr (lit "a"); PInt 1]])).
  reflexivity.
Defined.

(** ** The record codec *)
Section Codec.
Variable identifier : option pystr.

Lemma identifier_in_Some (record : document) (i : pystr) (v : pyval) :
  identifier = Some i -> chars i <> "" -> record !! chars i = Some v ->
  identifier_in identifier record = Some (chars i).
Proof.
  intros -> Hne Hv. unfold identifier_in.
  rewrite (proj2 (String.eqb_neq _ _) Hne), Hv.
  by rewrite bool_decide_eq_true_2 by (by eexists).
Qed.

Lemma identifier_in_None (record : document) :
  (forall i, identifier = Some i -> chars i = "" \/ record !! chars i = None) ->
  identifier_in identifier record = None.
Proof.
  intros Hi. unfold identifier_in. destruct identifier as [i |]; [| done].
  destruct (Hi i eq_refl) as [-> | ->]; [done |].
  rewrite bool_decide_eq_false_2 by (by intros [? ?]).
  by rewrite andb_false_r.
Qed.

(** What decoding does to the native key: an [ObjectId] becomes its text. *)
Lemma _record_from_id_no_key (record : document) :
  record !! "_id" = None -> _record_from_id identifier record = record.
Proof.
  intros Hid. unfold _record_from_id. rewrite Hid.
  destruct identifier as [i |]; [| done].
  rewrite Hid, bool_decide_eq_false_2 by (by intros [? ?]).
  by rewrite andb_false_r.
Qed.

Lemma _record_from_id_key (record : document) (i : pystr) (v : pyval) :
  identifier = Some i -> chars i <> "" -> record !! "_id" = Some v ->
  _record_from_id identifier record
  = <[chars i := match v with
                 | PObjectId h => PStr (Str false h)
                 | _ => v
                 end]> (delete "_id" record).
Proof.
  intros -> Hne Hv. unfold _record_from_id. rewrite Hv.
  rewrite (proj2 (String.eqb_neq _ _) Hne). cbn [negb andb].
  destruct v as [[| b | z | s | h] | l | d]; cbn [isinstance_ObjectId];
    try (rewrite Hv, bool_decide_eq_true_2 by (by eexists);
         unfold rename; by rewrite Hv).
  rewrite lookup_insert_eq, bool_decide_eq_true_2 by (by eexists).
  unfold rename. by rewrite lookup_insert_eq, delete_insert_eq.
Qed.

(** Decoding undoes encoding on a record without a native key of its
    own whose identifier value is not an [ObjectId]. *)
Lemma record_roundtrip (record : document) :
  record !! "_id" = None ->
  (forall i v, identifier = Some i -> record !! chars i = Some v ->
               isinstance_ObjectId v = false) ->
  _record_from_id identifier (_record_to_id identifier record) = record.
Proof.
  intros Hid Hoid. unfold _record_to_id.
  assert (identifier = None \/ exists i, identifier = Some i) as [Ei | [i Ei]]
    by (destruct identifier; eauto).
  { rewrite identifier_in_None by congruence. by apply _record_from_id_no_key. }
  destruct (decide (chars i = "")) as [Empty | Hne].
  { rewrite identifier_in_None by (intros ? ?; left; congruence).
    by apply _record_from_id_no_key. }
  destruct (record !! chars i) as [v |] eqn:Hv; cycle 1.
  { rewrite identifier_in_None by (intros ? ?; right; congruence).
    by apply _record_from_id_no_key. }
  rewrite (identifier_in_Some record i v) by done.
  unfold rename. rewrite Hv.
  rewrite (_record_from_id_key _ i v) by (done || apply lookup_insert_eq).
  specialize (Hoid i v Ei Hv).
  rewrite delete_insert_eq, (delete_id (delete (chars i) record) "_id").
  - rewrite insert_delete_eq.
    destruct v as [[| b | z | s | h] | l | d];
      (discriminate || by apply insert_id).
  - rewrite lookup_delete_ne; [done | congruence].
Qed.

(** C5. For a record whose logical-identifier value is not [None], that
    has no native key field "_id" of its own and no [ObjectId] among its
    values, decoding the encoded record gives the record back. *)
Theorem decode_encode (record : document) (i : pystr) (v : pyval) :
  identifier = Some i ->
  record !! chars i = Some v ->
  v <> PNone ->
  record !! "_id" = None ->
  map_Forall (fun _ value => isinstance_ObjectId value = false) record ->
  _record_from_id identifier (_record_to_id identifier record) = record.
Proof.
  intros _ _ _ Hid Hoid. apply record_roundtrip; [done |].
  intros j w _ Hw. by apply (map_Forall_lookup_1 _ _ _ _ Hoid Hw).
Qed.

End Codec.

(** ** The operations on the collection *)
Section Adapter.
Context {C : Type} `{Collection C}.
Variable identifier : option pystr.

Lemma insert_document_raises (record : document) (e : exn) :
  insert_document identifier record = Raise e -> e = KeyError (AStr (lit "_id")).
Proof.
  unfold insert_document.
  destruct (_record_to_id identifier record !! "_id"); congruence.
Qed.

(** C4. When the driver reports a uniqueness violation, [insert] fails
    with the domain error [DuplicateError]; the driver's own
    [DuplicateKeyError] never reaches the caller.  When the driver
    accepts the document, [insert] returns the stored document decoded,
    so that the key the store holds for it is found under the logical
    identifier (an [ObjectId] as its text). *)
Theorem insert_duplicate_and_success (record : document) (c : C) :
  fst (insert identifier record c) <> Raise DuplicateKeyError /\
  forall sent, insert_document identifier record = Ok sent ->
    (forall c', insert_one sent c = (Raise DuplicateKeyError, c') ->
       insert identifier record c
       = (Raise (DuplicateError "Duplicate record"), c')) /\
    (forall stored c', insert_one sent c = (Ok stored, c') ->
       insert identifier record c = (Ok (_record_from_id identifier stored), c') /\
       forall i key,
         identifier = Some i -> chars i <> "" -> stored !! "_id" = Some key ->
         _record_from_id identifier stored !! chars i
         = Some (match key with
                 | PObjectId h => PStr (Str false h)
                 | _ => key
                 end)).
Proof.
  split.
  - unfold insert.
    destruct (insert_document identifier record) as [sent | e] eqn:E.
    + destruct (insert_one sent c) as [[stored | []] c']; simpl; congruence.
    + apply insert_document_raises in E as ->. simpl. congruence.
  - intros sent E. unfold insert. rewrite E. split.
    + intros c' ->. reflexivity.
    + intros stored c' ->. split; [reflexivity |].
      intros i key Ei Hne Hkey.
      rewrite (_record_from_id_key identifier stored i key) by done.
      apply lookup_insert_eq.
Qed.

(** C10. When the encoded record has no native key field "_id",
    [insert] raises [KeyError('_id')] and the collection is left as it
    was: the driver is not called, no record is inserted and no domain
    error is raised. *)
Theorem insert_without_key (record : document) (c : C) :
  _record_to_id identifier record !! "_id" = None ->
  insert identifier record c = (Raise (KeyError (AStr (lit "_id"))), c).
Proof.
  intros Hid. unfold insert, insert_document. by rewrite Hid.
Qed.

(** The two ways the claim names of being without a key. *)
Lemma no_key_without_identifier (record : document) :
  record !! "_id" = None ->
  (forall i, identifier = Some i -> chars i = "" \/ record !! chars i = None) ->
  _record_to_id identifier record !! "_id" = None.
Proof.
  intros Hid Hi. unfold _record_to_id. by rewrite identifier_in_None.
Qed.

(** Every cursor that [find] builds carries the field list as it came,
    the limit, and a skip exactly when an offset was given. *)
Lemma find_results_options (where_ fields : pyval) (limit offset : option Z)
    (order : pyval) (results : Cursor) :
  find_results identifier where_ fields limit offset order = Ok results ->
  cur_projection results = fields /\
  cur_limit results = Some (default 100 limit) /\
  cur_skip results = offset.
Proof.
  unfold find_results. intros E.
  apply bind_Ok in E as (parsed & _ & E).
  apply bind_Ok in E as (found & Ef & E).
  unfold pymongo.find in Ef.
  destruct (takes_projection fields); [| discriminate].
  injection Ef as <-.
  apply bind_Ok in E as (skipped & Es & E).
  assert (S : cur_projection skipped = fields /\
              cur_limit skipped = Some (default 100 limit) /\
              cur_skip skipped = offset).
  { destruct offset as [n |].
    - unfold pymongo.skip in Es. destruct (n <? 0); [discriminate |].
      by injection Es as <-.
    - by injection Es as <-. }
  destruct (is_None order).
  - by injection E as <-.
  - apply bind_Ok in E as (items & _ & E).
    apply bind_Ok in E as (updated & _ & E).
    unfold pymongo.sort in E. destruct updated as [| pair updated]; [discriminate |].
    destruct (forallb _ _); [| discriminate].
    by injection E as <-.
Qed.

(** The cursor that [find] builds for conditions that translate, fields
    and an offset that the driver takes, and an order that is a
    non-empty list of [[field, direction]] pairs with a [str] for each
    field. *)
Lemma find_results_pairs (where_ fields : pyval) (limit offset : option Z)
    (pairs : list (pyval * pyval)) (parsed : dict) :
  _parse_conditions identifier where_ default_statement = Ok parsed ->
  takes_projection fields = true ->
  (forall n, offset = Some n -> 0 <= n) ->
  pairs <> [] ->
  Forall (fun '(f, _) => isinstance_str f = true) pairs ->
  find_results identifier where_ fields limit offset
    (PList (map (fun '(f, d) => PList [f; d]) pairs))
  = Ok {| cur_filter := parsed;
          cur_projection := fields;
          cur_limit := Some (default 100 limit);
          cur_skip := offset;
          cur_sort :=
            Some (map (fun '(f, d) =>
                         (f, if is_lit d "desc" then DESCENDING else ASCENDING))
                      pairs) |}.
Proof.
  intros E Hf Ho Hne Hs. unfold find_results, pymongo.find.
  rewrite E, Hf. cbn [bind].
  assert (S : forall c : Cursor,
             match offset with
             | Some n => pymongo.skip n c
             | None => Ok c
             end
             = Ok {| cur_filter := cur_filter c;
                     cur_projection := cur_projection c;
                     cur_limit := cur_limit c; cur_skip :=
                       match offset with Some n => Some n | None => cur_skip c end;
                     cur_sort := cur_sort c |}).
  { intros c. destruct offset as [n |]; [| by destruct c].
    unfold pymongo.skip.
    by rewrite (proj2 (Z.ltb_ge n 0) (Ho n eq_refl)). }
  rewrite S. cbn [bind is_None iter].
  set (each := fun item : pyval => _).
  assert (M : mapM each (map (fun '(f, d) => PList [f; d]) pairs)
              = Ok (map (fun '(f, d) =>
                           (f, if is_lit d "desc" then DESCENDING else ASCENDING))
                        pairs)).
  { clear. induction pairs as [| [f d] r IH]; [done |].
    cbn [map mapM]. rewrite IH. reflexivity. }
  rewrite M. cbn [bind]. unfold pymongo.sort.
  assert (K : forallb (fun '(key, _) => isinstance_str key)
                (map (fun '(f, d) =>
                        (f, if is_lit d "desc" then DESCENDING else ASCENDING))
                     pairs) = true).
  { clear -Hs. induction Hs as [| [f d] r Hf _ IH]; [done |].
    cbn [map forallb]. by rewrite Hf, IH. }
  rewrite K.
  destruct pairs as [| [f d] r]; [done |]. cbn [map].
  by destruct offset.
Qed.

(** The sort that [find] asks for, on such an order: the pairs in their
    order, descending for the interned "desc" and ascending for
    everything else. *)
Lemma find_results_order (where_ fields : pyval) (limit offset : option Z)
    (pairs : list (pyval * pyval)) (parsed : dict) :
  _parse_conditions identifier where_ default_statement = Ok parsed ->
  takes_projection fields = true ->
  (forall n, offset = Some n -> 0 <= n) ->
  pairs <> [] ->
  Forall (fun '(f, _) => isinstance_str f = true) pairs ->
  exists results,
    find_results identifier where_ fields limit offset
      (PList (map (fun '(f, d) => PList [f; d]) pairs)) = Ok results /\
    cur_sort results
    = Some (map (fun '(f, d) =>
                   (f, if is_lit d "desc" then DESCENDING else ASCENDING))
                pairs).
Proof.
  intros E Hf Ho Hne Hs. eexists. split.
  - by apply find_results_pairs.
  - reflexivity.
Qed.

End Adapter.

(** ** The adapter on the stub collection *)

(** The request that [find_one] sends: the translated filter and the
    field list as the caller gave it. *)
Lemma find_one_request (identifier : option pystr) (where_ fields : pyval)
    (parsed : dict) (s : Stub.store) :
  _parse_conditions identifier where_ default_statement = Ok parsed ->
  Stub.requests (snd (find_one identifier where_ fields s))
  = Stub.requests s ++ [Stub.FindOne parsed fields].
Proof. intros E. unfold find_one. by rewrite E. Qed.

(** The projection rules, on the identifier "id": no projection for no
    fields, the identifier included as "_id", and "_id" excluded when it
    was not asked for. *)
Example projection_rules :
  _projection_from_list (Some (lit "id")) PNone = Ok [] /\
  _projection_from_list (Some (lit "id")) (PList []) = Ok [] /\
  _projection_from_list (Some (lit "id"))
    (PList [PStr (lit "id"); PStr (lit "name"); PStr (lit "name")])
  = Ok [(AStr (lit "_id"), PInt 1); (AStr (lit "name"), PInt 1)] /\
  _projection_from_list (Some (lit "id")) (PList [PStr (lit "name")])
  = Ok [(AStr (lit "name"), PInt 1); (AStr (lit "_id"), PInt 0)].
Proof. repeat split; reflexivity. Qed.

(** C1. [find_one] and [find] hand the field list to the driver as they
    received it; the projection rules of [_projection_from_list] are not
    applied.  With the logical identifier "id" and the fields ["name"] the
    driver receives the list ["name"], where the rules give
    {"name": 1, "_id": 0}. *)
Theorem find_sends_fields_unprojected :
  let identifier := Some (lit "id") in
  let fields := PList [PStr (lit "name")] in
  Stub.requests (snd (find_one identifier PNone fields Stub.empty))
  = [Stub.FindOne [] fields] /\
  Stub.requests (snd (find identifier PNone fields None None PNone Stub.empty))
  = [Stub.Fetch {| cur_filter := []; cur_projection := fields;
                   cur_limit := Some 100; cur_skip := None; cur_sort := None |}] /\
  _projection_from_list identifier fields
  = Ok [(AStr (lit "name"), PInt 1); (AStr (lit "_id"), PInt 0)].
Proof. repeat split; reflexivity. Qed.

(** C6. [find] compares the direction with [is]: a "desc" that is not the
    interned object, such as one decoded from a request, is sorted
    ascending.  The limit, the skip and the order of the pairs are as the
    claim has them. *)
Theorem find_runtime_desc_sorts_ascending :
  find_results (Some (lit "id")) PNone PNone None (Some 20)
    (PList [PList [PStr (lit "score"); PStr (Str false "desc")];
            PList [PStr (lit "name"); PStr (Str false "asc")]])
  = Ok {| cur_filter := []; cur_projection := PNone;
          cur_limit := Some 100; cur_skip := Some 20;
          cur_sort := Some [(PStr (lit "score"), ASCENDING);
                            (PStr (lit "name"), ASCENDING)] |}.
Proof. reflexivity. Qed.

(** The same call with the interned "desc" sorts descending. *)
Example find_literal_desc_sorts_descending :
  find_results (Some (lit "id")) PNone PNone None None
    (PList [PList [PStr (lit "score"); PStr (lit "desc")];
            PList [PStr (lit "name"); PStr (lit "asc")]])
  = Ok {| cur_filter := []; cur_projection := PNone;
          cur_limit := Some 100; cur_skip := None;
          cur_sort := Some [(PStr (lit "score"), DESCENDING);
                            (PStr (lit "name"), ASCENDING)] |}.
Proof. reflexivity. Qed.

(** The witness of C4: a key that is taken, and a record without a key
    value that the store gives an [ObjectId]. *)
Lemma insert_duplicate_and_success_witness :
  insert (Some (lit "id")) {[ "id" := PInt 7 ]}
    {| Stub.taken := [AInt 7]; Stub.requests := [] |}
  = (Raise (DuplicateError "Duplicate record"),
     {| Stub.taken := [AInt 7];
        Stub.requests := [Stub.InsertOne {[ "_id" := PInt 7 ]}] |})
  /\ _record_from_id (Some (lit "id"))
       {[ "username" := PStr (Str false "bob");
          "_id" := PObjectId "65f0c0ffee00000000000100" ]} !! "id"
     = Some (PStr (Str false "65f0c0ffee00000000000100")).
Proof.
  split.
  - destruct (insert_duplicate_and_success (Some (lit "id"))
                {[ "id" := PInt 7 ]}
                {| Stub.taken := [AInt 7]; Stub.requests := [] |})
      as [_ Hsent].
    destruct (Hsent {[ "_id" := PInt 7 ]}) as [Hdup _]; [reflexivity |].
    apply Hdup. reflexivity.
  - destruct (insert_duplicate_and_success (Some (lit "id"))
                {[ "username" := PStr (Str false "bob"); "id" := PNone ]}
                Stub.empty)
      as [_ Hsent].
    destruct (Hsent {[ "username" := PStr (Str false "bob") ]}) as [_ Hok];
      [reflexivity |].
    destruct (Hok {[ "username" := PStr (Str false "bob");
                     "_id" := PObjectId "65f0c0ffee00000000000100" ]}
                  {| Stub.taken := [AObjectId "65f0c0ffee00000000000100"];
                     Stub.requests :=
                       [Stub.InsertOne {[ "username" := PStr (Str false "bob") ]}] |})
      as [_ Hkey]; [reflexivity |].
    apply (Hkey (lit "id") (PObjectId "65f0c0ffee00000000000100"));
      [reflexivity | discriminate | reflexivity].
Defined.

(** The witness of C5. *)
Lemma decode_encode_witness :
  _record_from_id (Some (lit "id"))
    (_record_to_id (Some (lit "id"))
       {[ "id" := PInt 7; "username" := PStr (Str false "bob") ]})
  = {[ "id" := PInt 7; "username" := PStr (Str false "bob") ]}.
Proof.
  apply (decode_encode (Some (lit "id")) _ (lit "id") (PInt 7)).
  - reflexivity.
  - reflexivity.
  - discriminate.
  - reflexivity.
  - apply (bool_decide_unpack _). vm_compute. exact I.
Defined.

(** The witness of C10: a record without the identifier field; the stub
    has received no request. *)
Lemma insert_without_key_witness :
  insert (Some (lit "id")) {[ "username" := PStr (Str false "bob") ]} Stub.empty
  = (Raise (KeyError (AStr (lit "_id"))),
     {| Stub.taken := []; Stub.requests := [] |}).
Proof.
  apply (insert_without_key (Some (lit "id"))). reflexivity.
Defined.

(** ** The permission policy and the token *)
Section Policy.
Import Auth.

(** *** The float of [total_seconds] *)

Lemma round_half_even_ge (n d : Z) : 0 < d -> n / d <= round_half_even n d.
Proof.
  intros Hd. unfold round_half_even.
  destruct (2 * (n mod d) ?= d); [destruct (Z.even (n / d)) | |]; lia.
Qed.

Lemma round_half_even_le (n d : Z) :
  0 < d -> 2 * round_half_even n d * d <= 2 * n + d.
Proof.
  intros Hd. unfold round_half_even.
  pose proof (Z.div_mod n d ltac:(lia)) as E.
  pose proof (Z.mod_pos_bound n d Hd) as B.
  destruct (Z.compare_spec (2 * (n mod d)) d) as [C | C | C];
    [destruct (Z.even (n / d)) | |]; nia.
Qed.

Lemma log2_quotient_le (n : Z) :
  0 < n -> n < 2 ^ 34 * 1000000 -> log2_quotient n 1000000 <= 33.
Proof.
  intros Hn Hb. unfold log2_quotient.
  change (Z.log2 1000000) with 19.
  assert (Z.log2 n < 54) by (apply Z.log2_lt_pow2; lia).
  destruct (Z.leb_spec 0 (Z.log2 n - 19)) as [P | P].
  - destruct (Z.ltb_spec n (1000000 * 2 ^ (Z.log2 n - 19))) as [L | L]; [lia |].
    destruct (Z.eq_dec (Z.log2 n - 19) 34) as [E | E]; [| lia].
    rewrite E in L. lia.
  - destruct (_ <? _); lia.
Qed.

(** Below 2^34 seconds a float has at least 19 bits after the point, more
    than a microsecond needs: the float of the quotient lies in the same
    second as the quotient. *)
Lemma int_true_div_exact (n : Z) :
  0 <= n -> n < 2 ^ 34 * 1000000 -> int_true_div n 1000000 = n / 1000000.
Proof.
  intros Hn Hb. unfold int_true_div.
  destruct (Z.eqb_spec n 0) as [-> | N0]; [done |].
  pose proof (log2_quotient_le n ltac:(lia) Hb) as K.
  set (k := log2_quotient n 1000000) in *.
  destruct (Z.leb_spec 0 (k - 52)) as [P | _]; [lia |].
  replace (- (k - 52)) with (19 + (33 - k)) by lia.
  rewrite Z.pow_add_r by lia.
  assert (S : 1 <= 2 ^ (33 - k)) by (apply (Z.pow_le_mono_r 2 0); lia).
  set (p := 2 ^ 19 * 2 ^ (33 - k)).
  assert (Hp : 524288 <= p) by (subst p; change (2 ^ 19) with 524288; nia).
  pose proof (round_half_even_ge (n * p) 1000000 ltac:(lia)) as G.
  pose proof (round_half_even_le (n * p) 1000000 ltac:(lia)) as L.
  set (m := round_half_even (n * p) 1000000) in *.
  pose proof (Z.div_mod n 1000000 ltac:(lia)) as E.
  pose proof (Z.mod_pos_bound n 1000000 ltac:(lia)) as B.
  set (q := n / 1000000) in *.
  assert (q * p <= n * p / 1000000) by (apply Z.div_le_lower_bound; nia).
  symmetry. apply (Z.div_unique_pos m p q (m - q * p)); nia.
Qed.

Lemma int_total_seconds_exact (delta : Z) :
  0 <= delta -> delta < 2 ^ 34 * 1000000 ->
  int_total_seconds delta = delta / 1000000.
Proof.
  intros H0 Hb. unfold int_total_seconds.
  destruct (Z.leb_spec 0 delta); [| lia]. by apply int_true_div_exact.
Qed.

(** *** The policy *)

Lemma in_scope_perms (required : string) (scope_perms : list string) :
  (if bool_decide ("*" ∉ scope_perms) && bool_decide (required ∉ scope_perms)
   then false else true) = true
  <-> "*" ∈ scope_perms \/ required ∈ scope_perms.
Proof.
  repeat case_bool_decide; simpl; split; intros G;
    try done; try tauto.
  all: destruct (decide ("*" ∈ scope_perms)); tauto.
Qed.

(** C7. For the role "service", [generate] grants the four capabilities
    r, c, u, d (read, create, update, delete) on each of the scopes
    accounts, highscores and users.  For the role "guest" it grants
    create and read on accounts and read on highscores and nothing
    else: the scope users is absent, and [check_permission] on users is
    false for every capability.  For any other role it raises
    [ValueError], the error that the specification calls
    UnknownRoleError. *)
Theorem generate_policy (user : User) :
  (type user = "service" ->
   exists permissions, generate user = Ok permissions /\
     forall scope required,
       scope ∈ ["accounts"; "highscores"; "users"] ->
       required ∈ ["r"; "c"; "u"; "d"] ->
       permissions !! scope = Some ["r"; "c"; "u"; "d"] /\
       check_permission scope permissions required = true) /\
  (type user = "guest" ->
   exists permissions, generate user = Ok permissions /\
     permissions !! "accounts" = Some ["r"; "c"] /\
     permissions !! "highscores" = Some ["r"] /\
     permissions !! "users" = None /\
     dom permissions = {[ "accounts"; "highscores" ]} /\
     forall required, check_permission "users" permissions required = false) /\
  (type user <> "service" -> type user <> "guest" ->
   generate user = Raise (ValueError ("Unknown user type: " +:+ type user))).
Proof.
  unfold generate. repeat split.
  - intros ->. eexists. split; [reflexivity |].
    intros scope required Hs Hr.
    assert (Hl : ({[ "accounts" := ["r"; "c"; "u"; "d"];
                     "highscores" := ["r"; "c"; "u"; "d"];
                     "users" := ["r"; "c"; "u"; "d"] ]} : grant) !! scope
                 = Some ["r"; "c"; "u"; "d"]).
    { repeat (apply elem_of_cons in Hs as [-> | Hs]); try reflexivity.
      by apply elem_of_nil in Hs. }
    split; [done |]. unfold check_permission. rewrite Hl.
    apply in_scope_perms. by right.
  - intros ->. eexists. split; [reflexivity |].
    repeat split; reflexivity.
  - intros N1 N2.
    by rewrite (proj2 (String.eqb_neq _ _) N1), (proj2 (String.eqb_neq _ _) N2).
Qed.

(** A guest may read and create accounts and read highscores, and
    nothing else. *)
Lemma guest_permissions (user : User) (permissions : grant)
    (scope required : string) :
  type user = "guest" -> generate user = Ok permissions ->
  check_permission scope permissions required = true
  <-> (scope = "accounts" /\ (required = "r" \/ required = "c"))
      \/ (scope = "highscores" /\ required = "r").
Proof.
  unfold generate. intros -> [= <-]. unfold check_permission.
  destruct (decide (scope = "accounts")) as [-> | Na].
  { change (_ !! "accounts") with (Some ["r"; "c"]) at 1.
    rewrite in_scope_perms, !elem_of_cons, !elem_of_nil.
    intuition discriminate. }
  rewrite lookup_insert_ne by done.
  destruct (decide (scope = "highscores")) as [-> | Nh].
  { rewrite lookup_singleton_eq, in_scope_perms, !elem_of_cons, !elem_of_nil.
    intuition discriminate. }
  rewrite lookup_singleton_ne by done. split; [done | tauto].
Qed.

(** C8. [make] builds a claim set whose issuer is the constant "rh-api",
    whose subject is "{username}-{type}_{id}", whose grant, under "aut",
    is what [generate] gives for the user, and whose valid-to is 600
    seconds after its valid-from, which is its issued-at; it fails as
    [generate] does when the role is unknown.  The clock reads an instant
    that is not before 1970 and whose expiry is before 2^34 seconds
    (2514-05-30 01:53:04), the instants at which the float of
    [total_seconds()] still tells the microseconds of a second apart. *)
Theorem make_claim_set (self_secret : string) (utcnow : Z) (user : User) :
  0 <= utcnow -> utcnow + 600000000 < 2 ^ 34 * 1000000 ->
  match generate user with
  | Ok permissions =>
      exists jwt, make self_secret utcnow user = Ok jwt /\
        issuer jwt = "rh-api" /\
        subject jwt = username user +:+ "-" +:+ type user +:+ "_" +:+ id user /\
        payload jwt = {[ "aut" := permissions ]} /\
        issued_at jwt = valid_from jwt /\
        valid_to jwt = valid_from jwt + 600
  | Raise e => make self_secret utcnow user = Raise e
  end.
Proof.
  intros Hnow Hlate. unfold make.
  destruct (generate user) as [permissions | e]; [| done].
  eexists. split; [reflexivity |].
  cbn [bind issuer subject payload issued_at valid_from valid_to].
  repeat split.
  unfold timedelta_minutes, epoch. rewrite !Z.sub_0_r.
  change (10 * 60 * 1000000) with (600 * 1000000).
  rewrite !int_total_seconds_exact by lia.
  by rewrite Z.div_add by lia.
Qed.

(** Past that range the window is not 600 seconds: at
    2514-05-30 01:53:03.999999 the two floats are 2^34 - 1 and a fraction
    and 2^34 + 600 exactly, 601 seconds apart. *)
Example make_window_in_2514 :
  exists jwt,
    make "secret" 17179869183999999
      {| username := "bob"; password := ""; type := "guest"; id := "42" |}
    = Ok jwt /\
    valid_from jwt = 17179869183 /\ valid_to jwt = 17179869784.
Proof. eexists. split; [reflexivity |]. split; reflexivity. Qed.

End Policy.

(** The witness of C7: a service, a guest and an admin. *)
Lemma generate_policy_witness :
  (exists permissions,
      Auth.generate {| Auth.username := "svc"; Auth.password := "";
                       Auth.type := "service"; Auth.id := "1" |} = Ok permissions /\
      Auth.check_permission "users" permissions "d" = true) /\
  (exists permissions,
      Auth.generate {| Auth.username := "bob"; Auth.password := "";
                       Auth.type := "guest"; Auth.id := "42" |} = Ok permissions /\
      Auth.check_permission "users" permissions "r" = false) /\
  Auth.generate {| Auth.username := "eve"; Auth.password := "";
                   Auth.type := "admin"; Auth.id := "7" |}
  = Raise (ValueError "Unknown user type: admin").
Proof.
  split; [| split].
  - destruct (generate_policy {| Auth.username := "svc"; Auth.password := "";
                                 Auth.type := "service"; Auth.id := "1" |})
      as [Hs _].
    destruct (Hs eq_refl) as (permissions & E & Hp).
    exists permissions. split; [exact E |].
    apply (Hp "users" "d").
    + apply (bool_decide_unpack _). vm_compute. exact I.
    + apply (bool_decide_unpack _). vm_compute. exact I.
  - destruct (generate_policy {| Auth.username := "bob"; Auth.password := "";
                                 Auth.type := "guest"; Auth.id := "42" |})
      as (_ & Hg & _).
    destruct (Hg eq_refl) as (permissions & E & _ & _ & _ & _ & Hu).
    exists permissions. split; [exact E | apply Hu].
  - destruct (generate_policy {| Auth.username := "eve"; Auth.password := "";
                                 Auth.type := "admin"; Auth.id := "7" |})
      as (_ & _ & Ho).
    apply Ho; discriminate.
Defined.

(** The witness of C8: a guest, at 2023-11-14 22:13:20.123456. *)
Lemma make_claim_set_witness :
  exists jwt,
    Auth.make "secret" 1700000000123456
      {| Auth.username := "bob"; Auth.password := "";
         Auth.type := "guest"; Auth.id := "42" |} = Ok jwt /\
    Auth.issuer jwt = "rh-api" /\
    Auth.subject jwt = "bob-guest_42" /\
    Auth.payload jwt
    = {[ "aut" := {[ "accounts" := ["r"; "c"]; "highscores" := ["r"] ]} ]} /\
    Auth.issued_at jwt = Auth.valid_from jwt /\
    Auth.valid_to jwt = Auth.valid_from jwt + 600.
Proof.
  apply (make_claim_set "secret" 1700000000123456
           {| Auth.username := "bob"; Auth.password := "";
              Auth.type := "guest"; Auth.id := "42" |}); lia.
Defined.

(** * Further properties of the code *)

(** ** Loops in the result monad *)

Lemma mapM_Forall2 {A B : Type} (f : A -> result B) (l : list A) (l' : list B) :
  mapM f l = Ok l' <-> Forall2 (fun x y => f x = Ok y) l l'.
Proof.
  revert l'. induction l as [| x r IH]; intros l'; simpl.
  - split; [intros [= <-]; constructor | by inversion 1].
  - split.
    + intros E. apply bind_Ok in E as (y & Ey & E).
      apply bind_Ok in E as (ys & Eys & [= <-]).
      constructor; [done | by apply IH].
    + inversion 1 as [| ? y ? ys Ey Eys]; subst.
      rewrite Ey. simpl. apply IH in Eys. by rewrite Eys.
Qed.

Lemma mapM_first_failure {A B : Type} (f : A -> result B)
    (before after : list A) (x : A) (e : exn) :
  Forall (fun y => exists b, f y = Ok b) before -> f x = Raise e ->
  mapM f (before ++ x :: after) = Raise e.
Proof.
  intros Hb Hx. induction Hb as [| y r [b Hy] _ IH]; simpl.
  - by rewrite Hx.
  - by rewrite Hy, IH.
Qed.

(** ** More on the condition translator *)
Section TranslatorMore.
Variable identifier : option pystr.

(** X1. A two-element condition [[field, value]] whose value is not a
    dict translates exactly as [[field, "=", value]], also when both
    fail because the field is unhashable. *)
Theorem shorthand_is_equality (field value : pyval) (op : pystr) :
  chars op = "=" -> (forall d, value <> PDict d) ->
  _parse_condition_list identifier [field; value]
  = _parse_condition_list identifier [field; PStr op; value].
Proof.
  intros Hop Hv. unfold _parse_condition_list.
  cbn [parse_condition_list_with eq_lit]. rewrite Hop. cbn [String.eqb].
  destruct value as [a | l | d]; try reflexivity. by destruct (Hv d).
Qed.

(** X2. A list condition whose length is neither 2 nor 3 raises whatever
    its elements are: [IndexError] when it is empty (from [condition[0]]),
    [Exception('Unhandled condition')] otherwise. *)
Theorem condition_length_errors (condition : list pyval) :
  length condition <> 2%nat -> length condition <> 3%nat ->
  _parse_condition_list identifier condition
  = Raise (if Nat.eqb (length condition) 0 then IndexError
           else Exception "Unhandled condition").
Proof.
  intros N2 N3. unfold _parse_condition_list.
  by destruct condition as [| c0 [| c1 [| c2 [| c3 r]]]].
Qed.

(** X3. The operands of the combinator that [_parse_conditions] builds
    from a non-empty list are the translations of the conditions of the
    list, one for each and in the same order. *)
Theorem operands_follow_conditions (conditions : list pyval)
    (statement : atom) (parsed : dict) :
  conditions <> [] ->
  _parse_conditions identifier (PList conditions) statement = Ok parsed ->
  exists operands,
    parsed = [(dollar statement, PList operands)] /\
    Forall2 (fun condition operand =>
               _parse_condition identifier condition = Ok operand)
            conditions operands.
Proof.
  intros Hne E. rewrite _parse_conditions_eq in E.
  destruct conditions as [| c r]; [done |]. cbn [truthy length negb iter] in E.
  simpl in E. apply bind_Ok in E as (operands & Eo & [= <-]).
  exists operands. split; [done |]. by apply (mapM_Forall2 _ (c :: r)).
Qed.

(** X4. When a condition of the list fails and those before it
    translate, the whole translation fails with that condition's error:
    nothing is skipped and no partial filter is returned. *)
Theorem first_failing_condition (before after : list pyval) (condition : pyval)
    (statement : atom) (e : exn) :
  Forall (fun c => exists operand, _parse_condition identifier c = Ok operand)
         before ->
  _parse_condition identifier condition = Raise e ->
  _parse_conditions identifier (PList (before ++ condition :: after)) statement
  = Raise e.
Proof.
  intros Hb Hc. rewrite _parse_conditions_eq.
  replace (truthy (PList (before ++ condition :: after))) with true
    by (by destruct before).
  cbn [negb iter bind]. by rewrite (mapM_first_failure _ _ _ _ e Hb Hc).
Qed.

End TranslatorMore.

(** The witness of X1. *)
Lemma shorthand_is_equality_witness :
  _parse_condition_list (Some (lit "id")) [PStr (lit "id"); PInt 7]
  = _parse_condition_list (Some (lit "id"))
      [PStr (lit "id"); PStr (Str false "="); PInt 7].
Proof.
  apply (shorthand_is_equality (Some (lit "id"))); [reflexivity | discriminate].
Defined.

(** The witness of X2: a condition of one element. *)
Lemma condition_length_errors_witness :
  _parse_condition_list None [PStr (lit "name")]
  = Raise (Exception "Unhandled condition").
Proof.
  apply (condition_length_errors None [PStr (lit "name")]); discriminate.
Defined.

(** The witness of X3. *)
Lemma operands_follow_conditions_witness :
  exists operands,
    [(dollar default_statement,
      PList [PDict [(AStr (lit "name"), PDict [(AStr (lit "$eq"), PInt 1)])]])]
    = [(dollar default_statement, PList operands)] /\
    Forall2 (fun condition operand =>
               _parse_condition None condition = Ok operand)
            [PList [PStr (lit "name"); PInt 1]] operands.
Proof.
  apply (operands_follow_conditions None [PList [PStr (lit "name"); PInt 1]]
           default_statement); [discriminate | reflexivity].
Defined.

(** The witness of X4: an operator that is not known, after a good one. *)
Lemma first_failing_condition_witness :
  _parse_conditions None
    (PList ([PList [PStr (lit "a"); PInt 1]]
            ++ PList [PStr (lit "b"); PStr (lit "!="); PInt 2]
            :: [PList [PStr (lit "c"); PInt 3]]))
    default_statement
  = Raise (Exception "Unhandled condition").
Proof.
  apply (first_failing_condition None).
  - constructor; [| constructor]. eexists. reflexivity.
  - reflexivity.
Defined.

(** ** Groups *)
Section Groups.
Variable identifier : option pystr.

Lemma dict_set_Forall (Pk : atom -> Prop) (Pv : pyval -> Prop)
    (k : atom) (v : pyval) (d : dict) :
  Forall (fun '(k', v') => Pk k' /\ Pv v') d -> Pk k -> Pv v ->
  Forall (fun '(k', v') => Pk k' /\ Pv v') (dict_set k v d).
Proof.
  intros Hd Hk Hv. induction Hd as [| [k0 v0] r [Hk0 Hv0] Hr IH]; simpl.
  - by repeat constructor.
  - destruct (atom_eqb k0 k); constructor; done.
Qed.

Lemma _parse_conditions_falsy (conditions : pyval) (statement : atom) :
  truthy conditions = false ->
  _parse_conditions identifier conditions statement = Ok [].
Proof. intros T. by rewrite _parse_conditions_eq, T. Qed.

Lemma _parse_conditions_truthy (conditions : pyval) (statement : atom)
    (k : atom) (v : pyval) (rest : dict) :
  _parse_conditions identifier conditions statement = Ok ((k, v) :: rest) ->
  truthy conditions = true.
Proof.
  rewrite _parse_conditions_eq. by destruct (truthy conditions).
Qed.

(** X5. In the filter that [_parse_condition_dict] returns for a group,
    every key is "$" followed by a statement of the group whose
    sub-conditions are not empty, and every value is a list of at least
    one operand: no key of the group with nothing under it reaches the
    filter. *)
Theorem group_filter_keys (conditions parsed : dict) :
  _parse_condition_dict identifier conditions = Ok parsed ->
  Forall (fun '(key, value) =>
            (exists statement sub_conditions,
                (statement, sub_conditions) ∈ conditions /\
                truthy sub_conditions = true /\ key = dollar statement) /\
            (exists operands, value = PList operands /\ operands <> []))
         parsed.
Proof.
  rewrite _parse_condition_dict_eq.
  set (Pk := fun key : atom => exists statement sub_conditions,
                 (statement, sub_conditions) ∈ conditions /\
                 truthy sub_conditions = true /\ key = dollar statement).
  set (Pv := fun value : pyval => exists operands,
                 value = PList operands /\ operands <> []).
  set (step := fun (parsed_conditions : dict) (item : atom * pyval) => _).
  assert (G : forall items acc,
             (forall item, item ∈ items -> item ∈ conditions) ->
             Forall (fun '(k, v) => Pk k /\ Pv v) acc ->
             foldM step items acc = Ok parsed ->
             Forall (fun '(k, v) => Pk k /\ Pv v) parsed).
  { induction items as [| [statement sub] r IH]; intros acc Hin Hacc E.
    - simpl in E. by inversion E; subst.
    - simpl in E. apply bind_Ok in E as (acc' & Estep & E).
      apply (IH acc'); [intros; apply Hin; by right | | done].
      unfold step in Estep. apply bind_Ok in Estep as (p & Ep & [= <-]).
      destruct (_parse_conditions_shape _ _ _ _ Ep) as [-> | (ops & Hops & ->)];
        [done |].
      simpl. apply dict_set_Forall; [done | | by exists ops].
      exists statement, sub. split; [apply Hin; by left |].
      split; [| done]. by eapply _parse_conditions_truthy. }
  intros E. by apply (G conditions []).
Qed.

(** X6. A group all of whose statements have nothing under them ([None],
    an empty list, an empty dict, ...) translates to the empty filter,
    however many statements it has. *)
Theorem empty_statements_vanish (conditions : dict) :
  Forall (fun '(statement, sub_conditions) => truthy sub_conditions = false)
         conditions ->
  _parse_condition_dict identifier conditions = Ok [].
Proof.
  rewrite _parse_condition_dict_eq.
  induction 1 as [| [statement sub] r T _ IH]; [done |].
  simpl. by rewrite (_parse_conditions_falsy _ _ T).
Qed.

End Groups.

(** The witness of X5. *)
Lemma group_filter_keys_witness :
  Forall (fun '(key, value) =>
            (exists statement sub_conditions,
                (statement, sub_conditions)
                ∈ [(AStr (lit "or"), PList [PList [PStr (lit "a"); PInt 1]]);
                   (AStr (lit "and"), PList [])] /\
                truthy sub_conditions = true /\ key = dollar statement) /\
            (exists operands, value = PList operands /\ operands <> []))
         [(dollar (AStr (lit "or")),
           PList [PDict [(AStr (lit "a"), PDict [(AStr (lit "$eq"), PInt 1)])]])].
Proof.
  apply (group_filter_keys None
           [(AStr (lit "or"), PList [PList [PStr (lit "a"); PInt 1]]);
            (AStr (lit "and"), PList [])]).
  reflexivity.
Defined.

(** The witness of X6. *)
Lemma empty_statements_vanish_witness :
  _parse_condition_dict None
    [(AStr (lit "and"), PList []); (AStr (lit "or"), PNone)] = Ok [].
Proof.
  apply (empty_statements_vanish None).
  repeat constructor.
Defined.

(** ** More on the record codec *)
Section CodecMore.
Variable identifier : option pystr.

(** The identifier as the codec sees it: none, or a name that is not the
    empty text. *)
Lemma identifier_cases :
  (forall i, identifier = Some i -> chars i = "") \/
  (exists i, identifier = Some i /\ chars i <> "").
Proof.
  destruct identifier as [i |]; [| by left].
  destruct (decide (chars i = "")); [left; congruence | right; eauto].
Qed.

Lemma _record_from_id_plain (record : document) :
  (forall i, identifier = Some i -> chars i = "") ->
  _record_from_id identifier record
  = match record !! "_id" with
    | Some v =>
        if isinstance_ObjectId v then <["_id" := str v]> record else record
    | None => record
    end.
Proof.
  intros Hi. unfold _record_from_id.
  destruct identifier as [i |]; [| done]. by rewrite (Hi i eq_refl).
Qed.

Lemma _record_to_id_key (record : document) (i : pystr) (v : pyval) :
  identifier = Some i -> chars i <> "" -> record !! chars i = Some v ->
  _record_to_id identifier record = <["_id" := v]> (delete (chars i) record).
Proof.
  intros Ei Hne Hv. unfold _record_to_id.
  rewrite (identifier_in_Some identifier record i v) by done.
  unfold rename. by rewrite Hv.
Qed.

Lemma _record_to_id_no_key (record : document) :
  (forall i, identifier = Some i -> chars i = "" \/ record !! chars i = None) ->
  _record_to_id identifier record = record.
Proof.
  intros Hi. unfold _record_to_id. by rewrite identifier_in_None.
Qed.

Lemma decoded_key_value (v : pyval) :
  isinstance_ObjectId
    match v with
    | PObjectId h => PStr (Str false h)
    | _ => v
    end = false.
Proof. by destruct v as [[| b | z | s | h] | l | d]. Qed.

(** After decoding, the field "_id" never holds an [ObjectId]: either the
    field has been moved to the identifier, or its value has been replaced
    by its text. *)
Lemma decoded_id_is_not_ObjectId (record : document) (h : string) :
  _record_from_id identifier record !! "_id" <> Some (PObjectId h).
Proof.
  destruct (record !! "_id") as [v |] eqn:Hv; cycle 1.
  { rewrite _record_from_id_no_key by done. by rewrite Hv. }
  destruct identifier_cases as [Hi | (i & Ei & Hne)].
  - rewrite _record_from_id_plain, Hv by done.
    destruct v as [[| b | z | s | h'] | l | d]; simpl;
      rewrite ?lookup_insert_eq, ?Hv; discriminate.
  - rewrite (_record_from_id_key identifier record i v) by done.
    destruct (decide (chars i = "_id")) as [-> | Hid].
    + rewrite lookup_insert_eq. intros [= E].
      pose proof (decoded_key_value v) as D. by rewrite E in D.
    + by rewrite lookup_insert_ne, lookup_delete_eq.
Qed.

(** With an identifier of its own name, a decoded record has no "_id". *)
Lemma decoded_has_no_id (record : document) (i : pystr) :
  identifier = Some i -> chars i <> "" -> chars i <> "_id" ->
  _record_from_id identifier record !! "_id" = None.
Proof.
  intros Ei Hne Hid. destruct (record !! "_id") as [v |] eqn:Hv.
  - rewrite (_record_from_id_key identifier record i v) by done.
    by rewrite lookup_insert_ne, lookup_delete_eq.
  - by rewrite _record_from_id_no_key.
Qed.

(** X8. Decoding twice is decoding once. *)
Theorem _record_from_id_idempotent (record : document) :
  _record_from_id identifier (_record_from_id identifier record)
  = _record_from_id identifier record.
Proof.
  destruct (record !! "_id") as [v |] eqn:Hv; cycle 1.
  { by rewrite !(_record_from_id_no_key identifier record Hv). }
  destruct identifier_cases as [Hi | (i & Ei & Hne)].
  - rewrite (_record_from_id_plain record), Hv by done.
    destruct (isinstance_ObjectId v) eqn:Ho.
    + rewrite _record_from_id_plain, lookup_insert_eq by done.
      by destruct v as [[| b | z | s | h'] | l | d].
    + by rewrite _record_from_id_plain, Hv, Ho.
  - rewrite (_record_from_id_key identifier record i v) by done.
    set (v' := match v with PObjectId h => _ | _ => v end).
    destruct (decide (chars i = "_id")) as [E | Hid].
    + rewrite E, insert_delete_eq.
      rewrite (_record_from_id_key identifier _ i v')
        by (done || apply lookup_insert_eq).
      rewrite E, insert_delete_eq, insert_insert_eq.
      f_equal. subst v'. by destruct v as [[| b | z | s | h'] | l | d].
    + apply _record_from_id_no_key.
      by rewrite lookup_insert_ne, lookup_delete_eq.
Qed.

(** X9. Encoding twice is encoding once. *)
Theorem _record_to_id_idempotent (record : document) :
  _record_to_id identifier (_record_to_id identifier record)
  = _record_to_id identifier record.
Proof.
  destruct identifier_cases as [Hi | (i & Ei & Hne)].
  { assert (E : _record_to_id identifier record = record)
      by (apply _record_to_id_no_key; intros i Ei; left; by apply Hi).
    by rewrite !E. }
  destruct (record !! chars i) as [v |] eqn:Hv; cycle 1.
  { assert (E : _record_to_id identifier record = record)
      by (apply _record_to_id_no_key; intros j Ej; right; congruence).
    by rewrite !E. }
  rewrite (_record_to_id_key record i v) by done.
  destruct (decide (chars i = "_id")) as [E | Hid].
  - rewrite E, insert_delete_eq.
    rewrite (_record_to_id_key _ i v) by (done || (rewrite E; apply lookup_insert_eq)).
    by rewrite E, insert_delete_eq, insert_insert_eq.
  - apply _record_to_id_no_key. intros j Ej. right.
    replace j with i by congruence.
    by rewrite lookup_insert_ne, lookup_delete_eq.
Qed.

(** X10. Encoding undoes decoding on a stored document: one that has a
    native key that is not an [ObjectId] and no field of its own under
    the identifier's name. *)
Theorem encode_decode (stored : document) (key : pyval) :
  stored !! "_id" = Some key ->
  isinstance_ObjectId key = false ->
  (forall i, identifier = Some i -> chars i <> "" -> chars i <> "_id" ->
             stored !! chars i = None) ->
  _record_to_id identifier (_record_from_id identifier stored) = stored.
Proof.
  intros Hk Ho Hfree.
  assert (K : match key with PObjectId h => PStr (Str false h) | _ => key end
              = key) by (by destruct key as [[| b | z | s | h'] | l | d]).
  destruct identifier_cases as [Hi | (i & Ei & Hne)].
  { rewrite _record_from_id_plain, Hk, Ho by done.
    apply _record_to_id_no_key. intros i Ei; left; by apply Hi. }
  rewrite (_record_from_id_key identifier stored i key), K by done.
  rewrite (_record_to_id_key _ i key) by (done || apply lookup_insert_eq).
  rewrite delete_insert_eq.
  destruct (decide (chars i = "_id")) as [E | Hid].
  - rewrite E, delete_delete_eq, insert_delete_eq. by apply insert_id.
  - rewrite (delete_id _ (chars i)).
    + rewrite insert_delete_eq. by apply insert_id.
    + rewrite lookup_delete_ne by done. by apply (Hfree i).
Qed.

(** X11. Encoding a record that has the identifier field moves its value
    to "_id", replacing a native key that the record had of its own,
    removes the identifier field and leaves every other field alone. *)
Theorem encode_moves_the_key (record : document) (i : pystr) (v : pyval) :
  identifier = Some i -> chars i <> "" -> chars i <> "_id" ->
  record !! chars i = Some v ->
  _record_to_id identifier record !! "_id" = Some v /\
  _record_to_id identifier record !! chars i = None /\
  forall k, k <> "_id" -> k <> chars i ->
            _record_to_id identifier record !! k = record !! k.
Proof.
  intros Ei Hne Hid Hv. rewrite (_record_to_id_key record i v) by done.
  split; [apply lookup_insert_eq |]. split.
  - by rewrite lookup_insert_ne, lookup_delete_eq.
  - intros k K1 K2. by rewrite lookup_insert_ne, lookup_delete_ne.
Qed.

(** X12. Decoding a document that has a native key moves its value (an
    [ObjectId] as its text) to the identifier field, replacing a field of
    that name that the document had, removes "_id" and leaves every other
    field alone. *)
Theorem decode_moves_the_key (stored : document) (i : pystr) (key : pyval) :
  identifier = Some i -> chars i <> "" -> chars i <> "_id" ->
  stored !! "_id" = Some key ->
  _record_from_id identifier stored !! chars i
  = Some (if isinstance_ObjectId key then str key else key) /\
  _record_from_id identifier stored !! "_id" = None /\
  forall k, k <> "_id" -> k <> chars i ->
            _record_from_id identifier stored !! k = stored !! k.
Proof.
  intros Ei Hne Hid Hk.
  rewrite (_record_from_id_key identifier stored i key) by done.
  split; [| split].
  - rewrite lookup_insert_eq. by destruct key as [[| b | z | s | h'] | l | d].
  - by rewrite lookup_insert_ne, lookup_delete_eq.
  - intros k K1 K2. by rewrite lookup_insert_ne, lookup_delete_ne.
Qed.

End CodecMore.

(** The witness of X10. *)
Lemma encode_decode_witness :
  _record_to_id (Some (lit "id"))
    (_record_from_id (Some (lit "id"))
       {[ "_id" := PInt 7; "username" := PStr (Str false "bob") ]})
  = {[ "_id" := PInt 7; "username" := PStr (Str false "bob") ]}.
Proof.
  apply (encode_decode (Some (lit "id")) _ (PInt 7)).
  - reflexivity.
  - reflexivity.
  - intros i [= <-] _ _. reflexivity.
Defined.

(** The witness of X11: a record with a native key of its own. *)
Lemma encode_moves_the_key_witness :
  _record_to_id (Some (lit "id"))
    {[ "id" := PInt 7; "_id" := PInt 9; "username" := PStr (Str false "bob") ]}
  !! "_id" = Some (PInt 7).
Proof.
  apply (encode_moves_the_key (Some (lit "id")) _ (lit "id") (PInt 7));
    [reflexivity | discriminate | discriminate | reflexivity].
Defined.

(** The witness of X12: a stored document with an [ObjectId]. *)
Lemma decode_moves_the_key_witness :
  _record_from_id (Some (lit "id"))
    {[ "_id" := PObjectId "65f0c0ffee00000000000100"; "id" := PInt 1 ]}
  !! "id" = Some (PStr (Str false "65f0c0ffee00000000000100")).
Proof.
  apply (decode_moves_the_key (Some (lit "id")) _ (lit "id")
           (PObjectId "65f0c0ffee00000000000100"));
    [reflexivity | discriminate | discriminate | reflexivity].
Defined.

(** ** More on the operations *)
Section AdapterMore.
Context {C : Type} `{Collection C}.
Variable identifier : option pystr.

Lemma _record_from_id_decoded (record : document) :
  (forall h, _record_from_id identifier record !! "_id" <> Some (PObjectId h)) /\
  (forall i, identifier = Some i -> chars i <> "" -> chars i <> "_id" ->
             _record_from_id identifier record !! "_id" = None).
Proof.
  split.
  - intros h. apply decoded_id_is_not_ObjectId.
  - intros i. apply decoded_has_no_id.
Qed.

(** X7. Whatever the driver answers, no record that [insert], [find_one]
    or [find] returns holds an [ObjectId] under "_id", and when the
    adapter has an identifier other than "_id" no returned record has a
    field "_id" at all. *)
Theorem returned_records_are_decoded (record : document)
    (where_ fields order : pyval) (limit offset : option Z) (c : C) :
  let decoded (returned : document) :=
    (forall h, returned !! "_id" <> Some (PObjectId h)) /\
    (forall i, identifier = Some i -> chars i <> "" -> chars i <> "_id" ->
               returned !! "_id" = None) in
  (forall returned c',
      insert identifier record c = (Ok returned, c') -> decoded returned) /\
  (forall returned c',
      find_one identifier where_ fields c = (Ok (Some returned), c') ->
      decoded returned) /\
  (forall returned c',
      find identifier where_ fields limit offset order c = (Ok returned, c') ->
      Forall decoded returned).
Proof.
  intros decoded. split; [| split].
  - intros returned c'. unfold insert.
    destruct (insert_document identifier record) as [sent | e].
    + destruct (insert_one sent c) as [[stored | []] c0]; intros [= <- <-];
        apply _record_from_id_decoded.
    + by destruct e.
  - intros returned c'. unfold find_one.
    destruct (_parse_conditions _ _ _) as [parsed | e]; [| done].
    destruct (pymongo.find_one parsed fields c) as [[[stored |] | e] c0];
      intros [= <- <-]. apply _record_from_id_decoded.
  - intros returned c'. unfold find.
    destruct (find_results _ _ _ _ _ _) as [results | e]; [| done].
    destruct (fetch results c) as [[stored | e] c0]; intros [= <- <-].
    apply List.Forall_map, List.Forall_forall. intros s _.
    apply _record_from_id_decoded.
Qed.

(** X13. When the conditions do not translate, [find_one] and [find]
    raise the translator's error and leave the collection as it was: the
    driver is not called. *)
Theorem untranslated_query_stops (where_ fields order : pyval)
    (limit offset : option Z) (c : C) (e : exn) :
  _parse_conditions identifier where_ default_statement = Raise e ->
  find_one identifier where_ fields c = (Raise e, c) /\
  find identifier where_ fields limit offset order c = (Raise e, c).
Proof.
  intros E. unfold find_one, find, find_results. by rewrite E.
Qed.

(** X14. An order that holds an item of fewer than two elements, after
    items that are pairs, makes [find] raise [IndexError], for conditions
    that translate and for fields and an offset that the driver takes.
    The cursor has been built by then (line 77 to 79), which sends
    nothing; the error comes at line 83, before the cursor is sorted or
    read: no query reaches the collection, which is left as it was. *)
Theorem short_order_item_stops (where_ fields : pyval) (limit offset : option Z)
    (before after : list pyval) (item : list pyval) (parsed : dict) (c : C) :
  _parse_conditions identifier where_ default_statement = Ok parsed ->
  takes_projection fields = true ->
  (forall n, offset = Some n -> 0 <= n) ->
  Forall (fun pair => exists f d rest, pair = PList (f :: d :: rest)) before ->
  (length item < 2)%nat ->
  find identifier where_ fields limit offset
    (PList (before ++ PList item :: after)) c
  = (Raise IndexError, c).
Proof.
  intros E Hf Ho Hb Hl. unfold find, find_results, pymongo.find.
  rewrite E, Hf. cbn [bind].
  destruct offset as [n |];
    [unfold pymongo.skip; rewrite (proj2 (Z.ltb_ge n 0) (Ho n eq_refl)) |];
    cbn [bind is_None iter];
    (rewrite (mapM_first_failure _ before after (PList item) IndexError);
     [done | |]).
  all: try (eapply Forall_impl; [exact Hb |];
            intros pair (f & d & rest & ->); eexists; reflexivity).
  all: destruct item as [| f [| d rest]]; [done | done | simpl in Hl; lia].
Qed.

(** X15. A record that brings its own key (not [None], not an
    [ObjectId]) and has no "_id" comes back from [insert] as it went in,
    when the driver stores the document it is given unchanged. *)
Theorem insert_returns_the_record (record : document) (i : pystr) (v : pyval)
    (c c' : C) :
  identifier = Some i -> chars i <> "" ->
  record !! chars i = Some v ->
  is_None v = false -> isinstance_ObjectId v = false ->
  record !! "_id" = None ->
  insert_one (_record_to_id identifier record) c
  = (Ok (_record_to_id identifier record), c') ->
  insert identifier record c = (Ok record, c').
Proof.
  intros Ei Hne Hv Hnone Hoid Hid Hdriver.
  unfold insert, insert_document.
  assert (Hkey : _record_to_id identifier record !! "_id" = Some v).
  { unfold _record_to_id.
    rewrite (identifier_in_Some identifier record i v) by done.
    unfold rename. by rewrite Hv, lookup_insert_eq. }
  rewrite Hkey, Hnone, Hdriver.
  rewrite record_roundtrip; [done | done |].
  intros j w Ej Hw. congruence.
Qed.

(** X16. A record whose identifier value is [None] is handed to the
    driver without that field and without any "_id"; when the driver
    adds a key to it, [insert] returns the record with the key (an
    [ObjectId] as its text) under the identifier and every other field
    as it was, a native key of its own apart. *)
Theorem insert_assigns_the_key (record : document) (i : pystr) :
  identifier = Some i -> chars i <> "" -> chars i <> "_id" ->
  record !! chars i = Some PNone ->
  let sent := delete "_id" (delete (chars i) record) in
  insert_document identifier record = Ok sent /\
  forall key c c',
    insert_one sent c = (Ok (<["_id" := key]> sent), c') ->
    insert identifier record c
    = (Ok (<[chars i := if isinstance_ObjectId key then str key else key]>
             (delete "_id" record)), c').
Proof.
  intros Ei Hne Hid Hv sent.
  assert (Hdoc : insert_document identifier record = Ok sent).
  { unfold insert_document, _record_to_id.
    rewrite (identifier_in_Some identifier record i PNone) by done.
    unfold rename. rewrite Hv, lookup_insert_eq. cbn [is_None].
    by rewrite delete_insert_eq. }
  split; [done |]. intros key c c' Hdriver.
  unfold insert. rewrite Hdoc, Hdriver. f_equal. f_equal.
  rewrite (_record_from_id_key identifier _ i key)
    by (done || apply lookup_insert_eq).
  rewrite delete_insert_eq. subst sent.
  rewrite delete_delete_eq, (delete_delete record), insert_delete_eq.
  by destruct key as [[| b | z | s | h] | l | d].
Qed.

End AdapterMore.

(** The witness of X7: a record that the stub gives an [ObjectId]. *)
Lemma returned_records_are_decoded_witness :
  (forall h,
      ({[ "username" := PStr (Str false "bob");
          "id" := PStr (Str false "65f0c0ffee00000000000100") ]} : document)
      !! "_id" <> Some (PObjectId h)) /\
  (forall i, Some (lit "id") = Some i -> chars i <> "" -> chars i <> "_id" ->
      ({[ "username" := PStr (Str false "bob");
          "id" := PStr (Str false "65f0c0ffee00000000000100") ]} : document)
      !! "_id" = None).
Proof.
  destruct (returned_records_are_decoded (Some (lit "id"))
              {[ "username" := PStr (Str false "bob"); "id" := PNone ]}
              PNone PNone PNone None None Stub.empty) as [Hinsert _].
  apply (Hinsert _
           {| Stub.taken := [AObjectId "65f0c0ffee00000000000100"];
              Stub.requests :=
                [Stub.InsertOne {[ "username" := PStr (Str false "bob") ]}] |}).
  reflexivity.
Defined.

(** The witness of X13: an operator that is not known. *)
Lemma untranslated_query_stops_witness :
  find_one None (PList [PList [PStr (lit "a"); PStr (lit "!="); PInt 1]])
    PNone Stub.empty
  = (Raise (Exception "Unhandled condition"), Stub.empty) /\
  find None (PList [PList [PStr (lit "a"); PStr (lit "!="); PInt 1]])
    PNone None None PNone Stub.empty
  = (Raise (Exception "Unhandled condition"), Stub.empty).
Proof.
  apply (untranslated_query_stops None). reflexivity.
Defined.

(** The witness of X14: a field name given where a pair is expected. *)
Lemma short_order_item_stops_witness :
  find None PNone (PList [PStr (lit "name")]) None (Some 20)
    (PList ([PList [PStr (lit "score"); PStr (lit "desc")]]
            ++ PList [PStr (lit "name")] :: []))
    Stub.empty
  = (Raise IndexError, Stub.empty).
Proof.
  apply (short_order_item_stops None PNone (PList [PStr (lit "name")]) None
           (Some 20) _ _ _ []).
  - reflexivity.
  - reflexivity.
  - intros n [= <-]. lia.
  - repeat constructor. eexists _, _, _. reflexivity.
  - simpl. lia.
Defined.

(** The witness of X15. *)
Lemma insert_returns_the_record_witness :
  insert (Some (lit "id"))
    {[ "id" := PInt 7; "username" := PStr (Str false "bob") ]} Stub.empty
  = (Ok {[ "id" := PInt 7; "username" := PStr (Str false "bob") ]},
     {| Stub.taken := [AInt 7];
        Stub.requests :=
          [Stub.InsertOne
             {[ "_id" := PInt 7; "username" := PStr (Str false "bob") ]}] |}).
Proof.
  apply (insert_returns_the_record (Some (lit "id")) _ (lit "id") (PInt 7));
    try reflexivity; discriminate.
Defined.

(** The witness of X16. *)
Lemma insert_assigns_the_key_witness :
  insert (Some (lit "id"))
    {[ "username" := PStr (Str false "bob"); "id" := PNone ]} Stub.empty
  = (Ok {[ "username" := PStr (Str false "bob");
           "id" := PStr (Str false "65f0c0ffee00000000000100") ]},
     {| Stub.taken := [AObjectId "65f0c0ffee00000000000100"];
        Stub.requests :=
          [Stub.InsertOne {[ "username" := PStr (Str false "bob") ]}] |}).
Proof.
  destruct (insert_assigns_the_key (Some (lit "id"))
              {[ "username" := PStr (Str false "bob"); "id" := PNone ]}
              (lit "id")) as [_ Hkey];
    [reflexivity | discriminate | discriminate | reflexivity |].
  apply (Hkey (PObjectId "65f0c0ffee00000000000100") Stub.empty).
  reflexivity.
Defined.

(** ** Dicts *)

Lemma atom_eqb_refl (a : atom) : atom_eqb a a = true.
Proof.
  destruct a as [| [] | z | s | h]; simpl;
    rewrite ?String.eqb_refl, ?Z.eqb_refl; done.
Qed.

Lemma atom_eqb_sym (a b : atom) : atom_eqb a b = atom_eqb b a.
Proof.
  destruct a as [| [] | y | s | g], b as [| [] | z | t | h]; simpl;
    rewrite ?(String.eqb_sym (chars s)), ?(String.eqb_sym g), ?(Z.eqb_sym y);
    try done; by rewrite Z.eqb_sym.
Qed.

Lemma atom_eqb_true_l (a b c : atom) :
  atom_eqb a b = true -> atom_eqb a c = atom_eqb b c.
Proof.
  destruct a as [| [] | y | s | g], b as [| [] | z | t | h];
    cbn [atom_eqb as_int]; intros E; try discriminate;
    try (apply String.eqb_eq in E); try (apply Z.eqb_eq in E);
    destruct c as [| [] | x | u | k]; cbn [atom_eqb as_int];
    try done; by rewrite <- E.
Qed.

Lemma dict_get_set (k k' : atom) (v : pyval) (d : dict) :
  dict_get k (dict_set k' v d)
  = if atom_eqb k' k then Some v else dict_get k d.
Proof.
  induction d as [| [k0 v0] r IH]; simpl.
  - done.
  - destruct (atom_eqb k0 k') eqn:E0; simpl.
    + rewrite (atom_eqb_true_l _ _ k E0). by destruct (atom_eqb k' k).
    + rewrite IH. destruct (atom_eqb k0 k) eqn:E1; [| done].
      destruct (atom_eqb k' k) eqn:E2; [| done].
      rewrite (atom_eqb_true_l _ _ k' E1), atom_eqb_sym, E2 in E0.
      discriminate.
Qed.

(** ** The projection builder *)
Section Projection.
Variable identifier : option pystr.

Lemma include_fields (fs : list atom) (acc : dict) :
  foldM (fun projection field =>
           k <- hashable field ;; Ok (dict_set k (PInt 1) projection))
        (map Atom fs) acc
  = Ok (fold_left (fun projection k => dict_set k (PInt 1) projection) fs acc).
Proof.
  revert acc. induction fs as [| a r IH]; intros acc; simpl; [done |].
  apply IH.
Qed.

Lemma included_fields (fs : list atom) (acc : dict) (k : atom) :
  dict_get k (fold_left (fun projection k => dict_set k (PInt 1) projection)
                        fs acc)
  = if existsb (fun a => atom_eqb a k) fs then Some (PInt 1)
    else dict_get k acc.
Proof.
  revert acc. induction fs as [| a r IH]; intros acc; simpl; [done |].
  rewrite IH, dict_get_set.
  destruct (atom_eqb a k); simpl; by destruct (existsb _ r).
Qed.

(** X17. For an adapter whose identifier, when it has one, is an
    interned [str] (a literal of the program, the one case in which
    [field is self.identifier] is decided by the two values), and for a
    non-empty list of hashable fields, [_projection_from_list] returns a
    projection in which exactly the listed fields are marked 1, a field
    that is the adapter's identifier object counting as "_id", and in
    which "_id" is marked 0 when it is not among them; no other key is
    in the projection. *)
Theorem projection_of_fields (fs : list atom) :
  (forall i, identifier = Some i -> interned i = true) ->
  fs <> [] ->
  let listed :=
    map (fun a => if is_identifier identifier (Atom a)
                  then AStr (lit "_id") else a) fs in
  exists projection,
    _projection_from_list identifier (PList (map Atom fs)) = Ok projection /\
    forall k,
      dict_get k projection
      = if existsb (fun a => atom_eqb a k) listed then Some (PInt 1)
        else if atom_eqb (AStr (lit "_id")) k then Some (PInt 0)
        else None.
Proof.
  intros _ Hne listed. unfold _projection_from_list.
  replace (truthy (PList (map Atom fs))) with true by (by destruct fs).
  cbn [negb iter bind].
  assert (R : map (fun field => if is_identifier identifier field
                                then PStr (lit "_id") else field)
                  (map Atom fs) = map Atom listed).
  { subst listed. rewrite !map_map. apply map_ext. intros a.
    by destruct (is_identifier identifier (Atom a)). }
  rewrite R, include_fields. cbn [bind].
  assert (I : existsb (fun field => eq_lit field "_id") (map Atom listed)
              = existsb (fun a => atom_eqb a (AStr (lit "_id"))) listed).
  { clear R. induction listed as [| a r IH]; simpl; [done |].
    rewrite IH. f_equal. by destruct a as [| [] | z | s | h]. }
  rewrite I.
  destruct (existsb (fun a => atom_eqb a (AStr (lit "_id"))) listed) eqn:Hid;
    cbn [negb]; eexists; (split; [reflexivity |]); intros k.
  - rewrite included_fields. cbn [dict_get].
    destruct (existsb (fun a => atom_eqb a k) listed) eqn:Hk; [done |].
    destruct (atom_eqb (AStr (lit "_id")) k) eqn:E; [| done].
    apply existsb_exists in Hid as (a & Ha & Hid).
    assert (existsb (fun a => atom_eqb a k) listed = true)
      by (apply existsb_exists; exists a;
          by rewrite (atom_eqb_true_l _ _ k Hid)).
    congruence.
  - rewrite dict_get_set, included_fields. cbn [dict_get].
    destruct (existsb (fun a => atom_eqb a k) listed) eqn:Hk; [| done].
    destruct (atom_eqb (AStr (lit "_id")) k) eqn:E; [| done].
    apply existsb_exists in Hk as (a & Ha & Hk).
    assert (existsb (fun a => atom_eqb a (AStr (lit "_id"))) listed = true).
    { apply existsb_exists. exists a. split; [done |].
      rewrite atom_eqb_sym in E.
      by rewrite (atom_eqb_true_l _ _ (AStr (lit "_id")) Hk). }
    congruence.
Qed.

Lemma include_stops (l after : list pyval) (x : pyval) (acc : dict) :
  Forall (fun y => exists a, y = Atom a) l -> (forall a, x <> Atom a) ->
  foldM (fun projection field =>
           k <- hashable field ;; Ok (dict_set k (PInt 1) projection))
        (l ++ x :: after) acc = Raise TypeError.
Proof.
  intros Hl Hx. revert acc. induction Hl as [| y r [a ->] _ IH]; intros acc.
  - destruct x as [a | l | d]; [by destruct (Hx a) | done | done].
  - simpl. apply IH.
Qed.

(** X18. A field that is a list or a dict makes [_projection_from_list]
    raise [TypeError] (it cannot be a key), whatever follows it. *)
Theorem unhashable_field (before : list atom) (field : pyval)
    (after : list pyval) :
  (forall a, field <> Atom a) ->
  _projection_from_list identifier (PList (map Atom before ++ field :: after))
  = Raise TypeError.
Proof.
  intros Hf. unfold _projection_from_list.
  replace (truthy (PList (map Atom before ++ field :: after))) with true
    by (by destruct before).
  cbn [negb iter bind]. rewrite map_app, map_cons.
  rewrite include_stops; [done | |].
  - apply List.Forall_map, List.Forall_map, List.Forall_forall. intros a _.
    destruct (is_identifier identifier (Atom a)); eauto.
  - intros a. unfold is_identifier.
    destruct identifier, field as [a' | l | d]; try done; by destruct (Hf a').
Qed.

End Projection.

(** X19. When the identifier is an interned [str], a field that has its
    text but is not the interned object (so another object) is not
    recognised by [field is self.identifier]: it stays in the projection
    under its own name and "_id" is excluded. *)
Theorem uninterned_identifier_field (i field : pystr) :
  interned i = true ->
  chars field = chars i -> interned field = false -> chars i <> "_id" ->
  _projection_from_list (Some i) (PList [PStr field])
  = Ok [(AStr field, PInt 1); (AStr (lit "_id"), PInt 0)].
Proof.
  destruct field as [fi text], i as [ii name]. cbn [chars interned].
  intros -> -> -> Hid. apply String.eqb_neq in Hid.
  unfold _projection_from_list.
  cbn [truthy length Nat.eqb negb iter bind map is_identifier same_str
       chars interned andb foldM hashable existsb eq_lit orb].
  rewrite Hid. cbn [negb dict_set atom_eqb chars lit]. by rewrite Hid.
Qed.

(** The witness of X17. *)
Lemma projection_of_fields_witness :
  exists projection,
    _projection_from_list (Some (lit "id"))
      (PList (map Atom [AStr (lit "id"); AStr (lit "name")])) = Ok projection /\
    forall k,
      dict_get k projection
      = if existsb (fun a => atom_eqb a k) [AStr (lit "_id"); AStr (lit "name")]
        then Some (PInt 1)
        else if atom_eqb (AStr (lit "_id")) k then Some (PInt 0)
        else None.
Proof.
  apply (projection_of_fields (Some (lit "id"))
           [AStr (lit "id"); AStr (lit "name")]).
  - by intros i [= <-].
  - discriminate.
Defined.

(** The witness of X18: a list among the fields. *)
Lemma unhashable_field_witness :
  _projection_from_list None
    (PList (map Atom [AStr (lit "name")] ++ PList [] :: [PStr (lit "age")]))
  = Raise TypeError.
Proof.
  apply (unhashable_field None [AStr (lit "name")] (PList [])).
  discriminate.
Defined.

(** The witness of X19: an "id" decoded from a request. *)
Lemma uninterned_identifier_field_witness :
  _projection_from_list (Some (lit "id")) (PList [PStr (Str false "id")])
  = Ok [(AStr (Str false "id"), PInt 1); (AStr (lit "_id"), PInt 0)].
Proof.
  apply (uninterned_identifier_field (lit "id") (Str false "id"));
    [reflexivity | reflexivity | reflexivity | discriminate].
Defined.

(** ** More on the permission policy and the token *)
Section PolicyMore.
Import Auth.
Import Stdlib.Strings.Ascii.

(** X20. [check_permission] is true exactly when the grant has the scope
    and the capabilities under it hold the wildcard "*" or the required
    one; a scope that is absent or has no capability grants nothing. *)
Theorem check_permission_iff (scope required : string) (permissions : grant) :
  check_permission scope permissions required = true
  <-> exists scope_perms,
        permissions !! scope = Some scope_perms /\
        ("*" ∈ scope_perms \/ required ∈ scope_perms).
Proof.
  unfold check_permission.
  destruct (permissions !! scope) as [[| x l] |].
  - split; [done |]. intros (? & [= <-] & [E | E]); by apply elem_of_nil in E.
  - rewrite in_scope_perms. split; [eauto |]. by intros (? & [= <-] & ?).
  - split; [done |]. by intros (? & ? & _).
Qed.

Lemma service_permissions (user : User) (permissions : grant)
    (scope required : string) :
  type user = "service" -> generate user = Ok permissions ->
  check_permission scope permissions required = true
  <-> scope ∈ ["accounts"; "highscores"; "users"] /\
      required ∈ ["r"; "c"; "u"; "d"].
Proof.
  unfold generate. intros -> [= <-]. unfold check_permission.
  destruct (decide (scope = "accounts")) as [-> | Na].
  { change (_ !! "accounts") with (Some ["r"; "c"; "u"; "d"]) at 1.
    rewrite in_scope_perms, !elem_of_cons, !elem_of_nil.
    intuition discriminate. }
  rewrite lookup_insert_ne by done.
  destruct (decide (scope = "highscores")) as [-> | Nh].
  { rewrite lookup_insert_eq, in_scope_perms, !elem_of_cons, !elem_of_nil.
    intuition discriminate. }
  rewrite lookup_insert_ne by done.
  destruct (decide (scope = "users")) as [-> | Nu].
  { rewrite lookup_singleton_eq, in_scope_perms, !elem_of_cons, !elem_of_nil.
    intuition discriminate. }
  rewrite lookup_singleton_ne, !elem_of_cons, !elem_of_nil by done.
  split; [done | tauto].
Qed.

(** X21. Whatever a guest is permitted, a service is permitted too. *)
Theorem guest_within_service (guest service : User)
    (guest_permissions_ service_permissions_ : grant)
    (scope required : string) :
  type guest = "guest" -> generate guest = Ok guest_permissions_ ->
  type service = "service" -> generate service = Ok service_permissions_ ->
  check_permission scope guest_permissions_ required = true ->
  check_permission scope service_permissions_ required = true.
Proof.
  intros Tg Gg Ts Gs Hc.
  apply (guest_permissions guest _ scope required Tg Gg) in Hc.
  apply (service_permissions service _ scope required Ts Gs).
  rewrite !elem_of_cons. destruct Hc as [[-> [-> | ->]] | [-> ->]]; tauto.
Qed.

(** X22. The permissions of a user with a grant, in full: a service may
    read, create, update and delete accounts, highscores and users; a
    guest may read and create accounts and read highscores; nothing else
    is permitted, for no scope and no capability, the wildcard
    included. *)
Theorem permissions_by_role (user : User) (permissions : grant)
    (scope required : string) :
  generate user = Ok permissions ->
  check_permission scope permissions required = true
  <-> (type user = "service" /\
       scope ∈ ["accounts"; "highscores"; "users"] /\
       required ∈ ["r"; "c"; "u"; "d"])
      \/ (type user = "guest" /\
          ((scope = "accounts" /\ (required = "r" \/ required = "c"))
           \/ (scope = "highscores" /\ required = "r"))).
Proof.
  intros G.
  destruct (String.eqb_spec (type user) "service") as [Ts | Ns].
  { rewrite (service_permissions user permissions scope required Ts G), Ts.
    intuition discriminate. }
  destruct (String.eqb_spec (type user) "guest") as [Tg | Ng].
  { rewrite (guest_permissions user permissions scope required Tg G), Tg.
    intuition discriminate. }
  unfold generate in G.
  by rewrite (proj2 (String.eqb_neq _ _) Ns), (proj2 (String.eqb_neq _ _) Ng) in G.
Qed.

(** *** The subject and the user id *)

Lemma append_nil (b : string) : EmptyString +:+ b = b.
Proof. reflexivity. Qed.

Lemma append_cons (c : ascii) (a b : string) :
  String c a +:+ b = String c (a +:+ b).
Proof. reflexivity. Qed.

Lemma append_assoc (a b c : string) : (a +:+ b) +:+ c = a +:+ (b +:+ c).
Proof.
  induction a as [| x a IH]; [done |]. by rewrite !append_cons, IH.
Qed.

Lemma split_last_spec (sep : ascii) (s : string) :
  exists front x,
    split sep s = front ++ [x] /\
    (forall p q, x <> p +:+ String sep q) /\
    (front = [] -> s = x) /\
    (front <> [] -> exists p, s = p +:+ String sep x).
Proof.
  induction s as [| c r (front & x & Hs & Hno & H0 & H1)].
  - exists [], EmptyString. repeat split; try done. by intros [| ? ?] q.
  - cbn [split]. destruct (Ascii.eqb_spec c sep) as [-> | Hc].
    + exists (EmptyString :: front), x. rewrite Hs.
      repeat split; try done. intros _.
      destruct front as [| f fr].
      * exists EmptyString. by rewrite (H0 eq_refl).
      * destruct H1 as [p ->]; [done |]. by exists (String sep p).
    + rewrite Hs. destruct front as [| f fr]; cbn [app].
      * exists [], (String c x). repeat split; try done.
        -- intros [| y p] q; [rewrite append_nil | rewrite append_cons];
             intros [= E1 E2]; [done |]. by apply (Hno p q).
        -- intros _. by rewrite (H0 eq_refl).
      * exists (String c f :: fr), x. repeat split; try done. intros _.
        destruct H1 as [p ->]; [done |]. by exists (String c p).
Qed.

Lemma split_after (sep : ascii) (a b : string) :
  exists piece pieces,
    split sep (a +:+ String sep b) = (piece :: pieces) ++ split sep b.
Proof.
  induction a as [| c a (piece & pieces & IH)].
  - rewrite append_nil. cbn [split]. rewrite Ascii.eqb_refl.
    by exists EmptyString, [].
  - rewrite append_cons. cbn [split]. rewrite IH.
    destruct (Ascii.eqb c sep).
    + by exists EmptyString, (piece :: pieces).
    + by exists (String c piece), pieces.
Qed.

Lemma last_after {A : Type} (front l : list A) (d : A) :
  l <> [] -> List.last (front ++ l) d = List.last l d.
Proof.
  intros Hl. induction front as [| x front IH]; [done |].
  simpl. rewrite IH. destruct (front ++ l) eqn:E; [| done].
  by destruct front, l.
Qed.

(** X23. The id that [user_id_from_subject] reads from a subject is the
    part of the subject after its last "_" (the whole subject when it has
    none), and never holds a "_" itself. *)
Theorem user_id_is_last_piece (subject : string) :
  let extracted := user_id_from_subject subject in
  (subject = extracted \/ exists p, subject = p +:+ String "_" extracted) /\
  (forall p q, extracted <> p +:+ String "_" q).
Proof.
  unfold user_id_from_subject.
  destruct (split_last_spec "_" subject) as (front & x & -> & Hno & H0 & H1).
  rewrite List.last_last. cbn zeta. split; [| done].
  destruct front as [| f fr]; [left; by apply H0 | right; by apply H1].
Qed.

(** X24. From the subject that [generate_subject] makes for a user,
    [user_id_from_subject] reads what it reads from the user's id alone:
    the id itself when the id holds no "_", and otherwise only what
    follows its last "_". *)
Theorem user_id_of_generated_subject (user : User) :
  user_id_from_subject (generate_subject user) = user_id_from_subject (id user) /\
  ((forall p q, id user <> p +:+ String "_" q) ->
   user_id_from_subject (generate_subject user) = id user).
Proof.
  assert (E : user_id_from_subject (generate_subject user)
              = user_id_from_subject (id user)).
  { unfold user_id_from_subject, generate_subject.
    replace (username user +:+ "-" +:+ type user +:+ "_" +:+ id user)
      with ((username user +:+ "-" +:+ type user) +:+ String "_" (id user))
      by (by rewrite !append_assoc).
    destruct (split_after "_" (username user +:+ "-" +:+ type user) (id user))
      as (piece & pieces & ->).
    apply last_after.
    destruct (split_last_spec "_" (id user)) as (front & x & -> & _).
    by destruct front. }
  split; [done |]. intros Hno. rewrite E. unfold user_id_from_subject.
  destruct (split_last_spec "_" (id user)) as (front & x & -> & _ & H0 & H1).
  rewrite List.last_last.
  destruct front as [| f fr]; [symmetry; by apply H0 |].
  destruct H1 as [p Hp]; [done |]. by destruct (Hno p x).
Qed.

(** *** The token *)

(** X25. For a user with a known role and two clock readings from 1970
    on whose expiries are before 2^34 seconds (2514-05-30 01:53:04),
    [make] gives the same claim set exactly when the readings fall in
    the same second: a token made again within the second is the same,
    one made in another second is not. *)
Theorem make_same_second (self_secret : string) (t1 t2 : Z) (user : User)
    (permissions : grant) :
  0 <= t1 -> t1 + 600000000 < 2 ^ 34 * 1000000 ->
  0 <= t2 -> t2 + 600000000 < 2 ^ 34 * 1000000 ->
  generate user = Ok permissions ->
  make self_secret t1 user = make self_secret t2 user
  <-> t1 `div` 1000000 = t2 `div` 1000000.
Proof.
  intros H1 L1 H2 L2 G. unfold make. rewrite G. cbn [bind].
  unfold timedelta_minutes, epoch. rewrite !Z.sub_0_r.
  change (10 * 60 * 1000000) with (600 * 1000000).
  rewrite !int_total_seconds_exact by lia.
  rewrite !Z.div_add by lia. split.
  - intros [= E _]. exact E.
  - by intros ->.
Qed.

End PolicyMore.

(** The witness of X21. *)
Lemma guest_within_service_witness :
  Auth.check_permission "accounts"
    {[ "accounts" := ["r"; "c"; "u"; "d"];
       "highscores" := ["r"; "c"; "u"; "d"];
       "users" := ["r"; "c"; "u"; "d"] ]} "c" = true.
Proof.
  apply (guest_within_service
           {| Auth.username := "bob"; Auth.password := "";
              Auth.type := "guest"; Auth.id := "42" |}
           {| Auth.username := "svc"; Auth.password := "";
              Auth.type := "service"; Auth.id := "1" |}
           {[ "accounts" := ["r"; "c"]; "highscores" := ["r"] ]});
    reflexivity.
Defined.

(** The witness of X22: a guest may not update accounts. *)
Lemma permissions_by_role_witness :
  Auth.check_permission "highscores"
    {[ "accounts" := ["r"; "c"]; "highscores" := ["r"] ]} "r" = true.
Proof.
  apply (permissions_by_role
           {| Auth.username := "bob"; Auth.password := "";
              Auth.type := "guest"; Auth.id := "42" |}
           {[ "accounts" := ["r"; "c"]; "highscores" := ["r"] ]}
           "highscores" "r").
  - reflexivity.
  - right. split; [reflexivity |]. right. split; reflexivity.
Defined.

(** The witness of X24: the id "42". *)
Lemma user_id_of_generated_subject_witness :
  Auth.user_id_from_subject
    (Auth.generate_subject
       {| Auth.username := "bob_the_first"; Auth.password := "";
          Auth.type := "guest"; Auth.id := "42" |}) = "42".
Proof.
  apply (user_id_of_generated_subject
           {| Auth.username := "bob_the_first"; Auth.password := "";
              Auth.type := "guest"; Auth.id := "42" |}).
  intros [| a [| b [| c p]]] q; discriminate.
Defined.

(** The witness of X25: two readings 0.3 s apart in one second. *)
Lemma make_same_second_witness :
  Auth.make "secret" 1700000000123456
    {| Auth.username := "bob"; Auth.password := "";
       Auth.type := "guest"; Auth.id := "42" |}
  = Auth.make "secret" 1700000000423456
      {| Auth.username := "bob"; Auth.password := "";
         Auth.type := "guest"; Auth.id := "42" |}.
Proof.
  apply (make_same_second "secret" 1700000000123456 1700000000423456
           {| Auth.username := "bob"; Auth.password := "";
              Auth.type := "guest"; Auth.id := "42" |}
           {[ "accounts" := ["r"; "c"]; "highscores" := ["r"] ]});
    [lia | lia | lia | lia | reflexivity | reflexivity].
Defined.

(** ** The cursor of [find] *)

(** An order that is the empty list is not [None]: [find] hands the
    empty list of keys to [sort], which refuses it. *)
Lemma find_empty_order (identifier : option pystr) (where_ fields : pyval)
    (limit offset : option Z) (parsed : dict) :
  _parse_conditions identifier where_ default_statement = Ok parsed ->
  takes_projection fields = true ->
  (forall n, offset = Some n -> 0 <= n) ->
  find_results identifier where_ fields limit offset (PList [])
  = Raise (ValueError "key_or_list must not be the empty list").
Proof.
  intros E Hf Ho. unfold find_results, pymongo.find. rewrite E, Hf.
  cbn [bind].
  destruct offset as [n |]; [| reflexivity].
  unfold pymongo.skip. by rewrite (proj2 (Z.ltb_ge n 0) (Ho n eq_refl)).
Qed.

(** X26. For conditions that translate, fields that the driver takes as
    a projection, an offset that is not negative when one is given, and
    an order that is a list of at least one [[field, direction]] pair
    whose fields are [str]s, the cursor that [find] iterates has the
    translated filter, the fields as given, the limit (100 when none is
    given), a skip exactly when an offset is given, and the sort list
    that [sort] was given: one (field, direction) pair for each pair of
    the order, in the order of the pairs, descending for the interned
    "desc" and ascending for every other direction. *)
Theorem find_cursor (identifier : option pystr) (where_ fields : pyval)
    (limit offset : option Z) (pairs : list (pyval * pyval)) (parsed : dict) :
  _parse_conditions identifier where_ default_statement = Ok parsed ->
  takes_projection fields = true ->
  (forall n, offset = Some n -> 0 <= n) ->
  pairs <> [] ->
  Forall (fun '(f, _) => isinstance_str f = true) pairs ->
  find_results identifier where_ fields limit offset
    (PList (map (fun '(f, d) => PList [f; d]) pairs))
  = Ok {| cur_filter := parsed;
          cur_projection := fields;
          cur_limit := Some (default 100 limit);
          cur_skip := offset;
          cur_sort :=
            Some (map (fun '(f, d) =>
                         (f, if is_lit d "desc" then DESCENDING else ASCENDING))
                      pairs) |}.
Proof.
  intros E Hf Ho Hne Hs. by apply find_results_pairs.
Qed.

(** The witness of X26. *)
Lemma find_cursor_witness :
  find_results None PNone (PList [PStr (lit "name")]) None (Some 20)
    (PList (map (fun '(f, d) => PList [f; d])
                [(PStr (lit "score"), PStr (lit "desc"));
                 (PStr (lit "name"), PStr (Str false "DESC"))]))
  = Ok {| cur_filter := [];
          cur_projection := PList [PStr (lit "name")];
          cur_limit := Some (default 100 None);
          cur_skip := Some 20;
          cur_sort :=
            Some (map (fun '(f, d) =>
                         (f, if is_lit d "desc" then DESCENDING else ASCENDING))
                      [(PStr (lit "score"), PStr (lit "desc"));
                       (PStr (lit "name"), PStr (Str false "DESC"))]) |}.
Proof.
  apply (find_cursor None PNone (PList [PStr (lit "name")]) None (Some 20)).
  - reflexivity.
  - reflexivity.
  - intros n [= <-]. lia.
  - discriminate.
  - repeat constructor.
Defined.
